(** * Morpha bootstrap runtime (src/c/morpha.h, src/c/morpha.c)

    A shallow embedding of the C runtime [MPH_rt_*] and the properties of
    its arena/result protocol, morph and rule encoders and evaluator.

    C data model: LP64.  [size_t], [void*] and [MPH_raw] (uint64_t) are
    64-bit and are carried as [Z] with the wrap-around of unsigned
    arithmetic written out; [int] is 32-bit and its overflow is undefined
    behaviour. *)

From Stdlib Require Import ZArith List Lia.
Import ListNotations.
Open Scope Z_scope.

(** ** C integer types *)

Definition SIZE_MAX : Z := 2 ^ 64 - 1.
Definition INT_MAX : Z := 2 ^ 31 - 1.

(** A value that inhabits [size_t]. *)
Definition size_t_ok (z : Z) : Prop := 0 <= z <= SIZE_MAX.

(** Unsigned addition on [size_t]. *)
Definition size_add (a b : Z) : Z := (a + b) mod 2 ^ 64.

(** Conversion of an [int] to [size_t], as the usual arithmetic
    conversions do to [i] in [i < rule->len]. *)
Definition int_to_size_t (i : Z) : Z := i mod 2 ^ 64.

(** ** Data model (morpha.h) *)

(** Addresses are word-granular: [p + i] is the [i]th [MPH_raw] after [p]. *)
Definition ptr : Type := Z.
Definition NULL : ptr := 0.

Definition MPH_raw : Type := Z.

Definition MPH_DEFAULT_BLOCK : Z := 0x200.

Inductive MPH_result_kind : Type :=
| MPH_OK
| MPH_HALT
| MPH_TOTALITY_FAULT
| MPH_MEM_LOW.

Record MPH_result : Type := mkResult {
  t : MPH_result_kind;
  data : Z
}.

Record MPH_runtime : Type := mkRuntime {
  raw : ptr;
  raw_size : Z;
  pos : Z
}.

Inductive MPH_op : Type :=
| MPH_OP_SUB
| MPH_OP_ADD
| MPH_OP_CMP
| MPH_OP_JMP
| MPH_OP_OFFSET.

(** The enumeration constant of an operator, as it is stored in an
    [MPH_raw] word. *)
Definition MPH_op_code (o : MPH_op) : MPH_raw :=
  match o with
  | MPH_OP_SUB => 0
  | MPH_OP_ADD => 1
  | MPH_OP_CMP => 2
  | MPH_OP_JMP => 3
  | MPH_OP_OFFSET => 4
  end.

Record MPH_cell : Type := mkCell {
  size : Z;
  offsets : list ptr
}.

Record MPH_morph : Type := mkMorph {
  op : MPH_op;
  args : Z
}.

(** [conds] and [morphs] point to caller-owned arrays; the arrays are
    carried by value, [len] is the count the caller declares for both. *)
Record MPH_rule : Type := mkRule {
  conds : list MPH_raw;
  morphs : list MPH_raw;
  len : Z
}.

(** Modelled from the spec: the table of fixed operator arities, which the
    source states only in comments ([MPH_OP_OFFSET] consumes the one
    following value, [MPH_OP_ADD] the following two).  ADD, SUB and CMP take
    two operand words, JMP and OFFSET take one. *)
Definition MPH_op_arity (o : MPH_op) : Z :=
  match o with
  | MPH_OP_SUB | MPH_OP_ADD | MPH_OP_CMP => 2
  | MPH_OP_JMP | MPH_OP_OFFSET => 1
  end.

(** ** Machine state

    The objects a call can reach: the runtime struct [*rt], the result
    struct [*ret] and the word memory that [rt->raw] points into.  The
    three are distinct objects.  [steps] is a ghost counter of the entries
    into [MPH_rt_step]; no code reads it. *)
Record machine : Type := mkMachine {
  rt : MPH_runtime;
  ret : MPH_result;
  mem : ptr -> MPH_raw;
  steps : nat
}.

(** The arena: the [raw_size] words of memory starting at [raw]. *)
Definition arena (w : machine) : list MPH_raw :=
  map (fun i => mem w (raw (rt w) + Z.of_nat i))
      (seq 0 (Z.to_nat (raw_size (rt w)))).

(** The allocation cursor; the runtime has the single field [pos]. *)
Definition cursor (w : machine) : Z := pos (rt w).

(** Words left between the cursor and the end of the arena. *)
Definition remaining (w : machine) : Z := raw_size (rt w) - pos (rt w).

(** ** A state monad with undefined behaviour *)

Inductive outcome (A : Type) : Type :=
| Ok (a : A)
| Undefined
| OutOfFuel.
Arguments Ok {A} a.
Arguments Undefined {A}.
Arguments OutOfFuel {A}.

Definition M (A : Type) : Type := machine -> outcome (A * machine).

Definition mret {A : Type} (a : A) : M A := fun w => Ok (a, w).

Definition bind {A B : Type} (m : M A) (k : A -> M B) : M B :=
  fun w =>
    match m w with
    | Ok (a, w') => k a w'
    | Undefined => Undefined
    | OutOfFuel => OutOfFuel
    end.

Definition undefined {A : Type} : M A := fun _ => Undefined.
Definition out_of_fuel {A : Type} : M A := fun _ => OutOfFuel.

Declare Scope mph_scope.
Delimit Scope mph_scope with mph.
Notation "x <- m ;; k" := (bind m (fun x => k))
  (at level 61, m at next level, right associativity) : mph_scope.
Notation "m ;; k" := (bind m (fun _ => k))
  (at level 61, right associativity) : mph_scope.
Open Scope mph_scope.

(** Field reads and writes through [rt] and [ret]. *)
Definition load_pos : M Z := fun w => Ok (pos (rt w), w).

Definition store_rt (r : MPH_runtime) : M unit :=
  fun w => Ok (tt, mkMachine r (ret w) (mem w) (steps w)).

Definition store_raw (p : ptr) : M unit :=
  fun w => store_rt (mkRuntime p (raw_size (rt w)) (pos (rt w))) w.

Definition store_raw_size (n : Z) : M unit :=
  fun w => store_rt (mkRuntime (raw (rt w)) n (pos (rt w))) w.

Definition store_pos (p : Z) : M unit :=
  fun w => store_rt (mkRuntime (raw (rt w)) (raw_size (rt w)) p) w.

Definition store_ret (r : MPH_result) : M unit :=
  fun w => Ok (tt, mkMachine (rt w) r (mem w) (steps w)).

Definition store_ret_t (k : MPH_result_kind) : M unit :=
  fun w => store_ret (mkResult k (data (ret w))) w.

Definition store_ret_data (d : Z) : M unit :=
  fun w => store_ret (mkResult (t (ret w)) d) w.

(** [return ret;] hands back the pointer; the caller reads the struct. *)
Definition return_ret : M MPH_result := fun w => Ok (ret w, w).

(** Ghost: one more entry into [MPH_rt_step]. *)
Definition count_step : M unit :=
  fun w => Ok (tt, mkMachine (rt w) (ret w) (mem w) (S (steps w))).

(** ** The runtime (morpha.c) *)

(** [memset(rt, 0, sizeof(MPH_runtime))] *)
Definition memset_rt_0 : M unit := store_rt (mkRuntime NULL 0 0).

Definition MPH_rt_init (raw_ : ptr) (raw_size_ : Z) : M unit :=
  memset_rt_0 ;;
  store_raw raw_ ;;
  store_raw_size raw_size_.

Definition MPH_rt_cell (c : MPH_cell) : M MPH_result :=
  store_ret_t MPH_TOTALITY_FAULT ;;
  return_ret.

Definition MPH_rt_morph (m : MPH_morph) : M MPH_result :=
  store_ret_t MPH_TOTALITY_FAULT ;;
  return_ret.

(** [for (i = 0; i < rule->len; i++) { rt->pos += 0; }] from the test of
    its condition at counter value [i].  [i] is an [int]: the comparison
    converts it to [size_t], and [i++] at [INT_MAX] is undefined. *)
Fixpoint MPH_rt_rule_loop (fuel : nat) (i : Z) (rule : MPH_rule) : M unit :=
  if int_to_size_t i <? len rule then
    match fuel with
    | O => out_of_fuel
    | S fuel' =>
        p <- load_pos ;;
        store_pos (size_add p 0) ;;
        if i <? INT_MAX
        then MPH_rt_rule_loop fuel' (i + 1) rule
        else undefined
    end
  else mret tt.

(** Iterations after which the loop has either left or overflowed [i]. *)
Definition MPH_rt_rule_fuel (rule : MPH_rule) : nat :=
  Z.to_nat (Z.min (len rule) (INT_MAX + 1)).

Definition MPH_rt_rule (rule : MPH_rule) : M MPH_result :=
  p <- load_pos ;;
  store_ret_data p ;;
  store_ret_t MPH_OK ;;
  MPH_rt_rule_loop (MPH_rt_rule_fuel rule) 0 rule ;;
  store_ret_t MPH_TOTALITY_FAULT ;;
  return_ret.

Definition MPH_rt_step : M MPH_result :=
  count_step ;;
  store_ret_t MPH_HALT ;;
  return_ret.

Definition MPH_rt_exec : M MPH_result :=
  store_ret_t MPH_HALT ;;
  return_ret.

(** The four operations of the arena/result protocol that can report a
    fault, as one call. *)
Inductive operation : Type :=
| Op_morph (m : MPH_morph)
| Op_rule (rule : MPH_rule)
| Op_cell (c : MPH_cell)
| Op_step.

Definition call (o : operation) : M MPH_result :=
  match o with
  | Op_morph m => MPH_rt_morph m
  | Op_rule rule => MPH_rt_rule rule
  | Op_cell c => MPH_rt_cell c
  | Op_step => MPH_rt_step
  end.

(** The caller's [rt.pos = ret.data;] of the header's example. *)
Definition set_pos_to_data : M unit :=
  fun w => store_pos (data (ret w)) w.

(** ** Fixtures of main_test.c *)

(** [main]'s locals before the first test: [r] is uninitialised, [ret]
    has been cleared by [memset], [mem] is the block at [test_mem_addr]. *)
Definition test_mem_addr : ptr := 0x1000.

Definition test_start : machine :=
  mkMachine (mkRuntime 7 9 11) (mkResult MPH_OK 0) (fun _ => 0) 0.

(** [(MPH_rule){ (MPH_raw[]){ MPH_OP_ADD }, (MPH_raw[]){ MPH_OP_ADD }, 1 }] *)
Definition test_rule_add : MPH_rule :=
  mkRule [MPH_op_code MPH_OP_ADD] [MPH_op_code MPH_OP_ADD] 1.

(** The machine a call ends in, when it ends. *)
Definition final {A : Type} (o : outcome (A * machine)) (d : machine) : machine :=
  match o with
  | Ok (_, w) => w
  | _ => d
  end.

Definition after_init (store : ptr) (capacity : Z) (w : machine) : machine :=
  final (MPH_rt_init store capacity w) w.



(** ** States inside MPH_rt_rule *)

(** The machine after one pass through the body, [rt->pos += 0]. *)
Definition after_body (w : machine) : machine :=
  mkMachine (mkRuntime (raw (rt w)) (raw_size (rt w)) (size_add (pos (rt w)) 0))
            (ret w) (mem w) (steps w).

(** The machine on entry to the loop: [ret] holds OK and the position. *)
Definition rule_entry (w : machine) : machine :=
  mkMachine (rt w) (mkResult MPH_OK (pos (rt w))) (mem w) (steps w).

(** The machine [MPH_rt_rule] leaves when its loop comes back. *)
Definition rule_exit (w : machine) : machine :=
  mkMachine (rt w) (mkResult MPH_TOTALITY_FAULT (pos (rt w))) (mem w) (steps w).

(** ** The documented run loop *)

(** The loop of the header's words, "MPH_rt_exec iterates over MPH_rt_step
    until it reaches MPH_MEM_LOW or MPH_HALT", to compare with the body of
    [MPH_rt_exec]. *)
Fixpoint exec_by_steps (fuel : nat) : M MPH_result :=
  match fuel with
  | O => out_of_fuel
  | S fuel' =>
      r <- MPH_rt_step ;;
      match t r with
      | MPH_HALT | MPH_MEM_LOW => mret r
      | MPH_OK | MPH_TOTALITY_FAULT => exec_by_steps fuel'
      end
  end.

(** ** Fixtures after initialisation *)

(** The runtime of main_test.c after [test_rt_init]. *)
Definition test_ready : machine :=
  after_init test_mem_addr MPH_DEFAULT_BLOCK test_start.

(** A runtime whose arena holds a single word. *)
Definition one_word_ready : machine :=
  after_init test_mem_addr 1 test_start.

(** [MPH_morph{ .op = MPH_OP_ADD }] declaring its two operands. *)
Definition morph_add : MPH_morph := mkMorph MPH_OP_ADD 2.

(** The same operator declaring three operands. *)
Definition morph_add_3 : MPH_morph := mkMorph MPH_OP_ADD 3.

(** Words an encoded morph takes: the operator and its operands. *)
Definition morph_words (m : MPH_morph) : Z := 1 + MPH_op_arity (op m).

(** Words an encoded rule takes at the least: one per condition and one
    per action. *)
Definition rule_words_min (rule : MPH_rule) : Z := len rule + len rule.

(** ** Sessions of calls *)

(** A client that issues the calls [os] one after the other on the same
    runtime and result struct, and keeps each result it reads. *)
Fixpoint run_calls (os : list operation) : M (list MPH_result) :=
  match os with
  | [] => mret []
  | o :: os' =>
      r <- call o ;;
      rs <- run_calls os' ;;
      mret (r :: rs)
  end.

(** The calls of [os] that are steps. *)
Fixpoint count_steps (os : list operation) : nat :=
  match os with
  | [] => O
  | Op_step :: os' => S (count_steps os')
  | _ :: os' => count_steps os'
  end.

(** The kind each body stores last: a fault for the three encoders, HALT
    for the step. *)
Definition stored_kind (o : operation) : MPH_result_kind :=
  match o with
  | Op_morph _ | Op_rule _ | Op_cell _ => MPH_TOTALITY_FAULT
  | Op_step => MPH_HALT
  end.

(** A rule that declares 2^31 entries. *)
Definition rule_too_long : MPH_rule := mkRule [] [] (INT_MAX + 1).

(** A rule of one declared entry with two conditions and no action. *)
Definition rule_uneven : MPH_rule :=
  mkRule [MPH_op_code MPH_OP_CMP; MPH_op_code MPH_OP_JMP] [] 1.

(** The test runtime after a call that stored a fault and no payload. *)
Definition test_ready_faulted : machine :=
  mkMachine (rt test_ready) (mkResult MPH_TOTALITY_FAULT 0)
            (mem test_ready) (steps test_ready).

(** The calls of the two step tests and the two encoder tests, in the
    order main issues them. *)
Definition test_session : list operation :=
  [Op_morph morph_add; Op_step; Op_rule test_rule_add; Op_step].

(** ** The test harness (main_test.c) *)

From Stdlib Require String Ascii DecimalString.

(** Reads of the runtime struct that the checks of the tests make. *)
Definition load_raw : M ptr := fun w => Ok (raw (rt w), w).
Definition load_raw_size : M Z := fun w => Ok (raw_size (rt w), w).

Module Harness.

Import String Ascii.

Definition TEST_BUF_MEM : Z := 2 ^ 16.
Definition TEST_MAX : Z := 100.

Inductive test_rt : Type :=
| TEST_OK
| TEST_FAILED
| TEST_FATAL
| TEST_UNIMPLEMENTED
| TEST_OOM.

(** [buf] and [buf_max] are offsets into the block of the log buffer, and
    so are the entries of [cursors]; [cursor] is an [int]. *)
Record test : Type := mkTest {
  buf : Z;
  buf_max : Z;
  cursors : Z -> Z;
  cursor : Z
}.

(** What a test can reach: the struct [*t], the bytes of the log block and
    its size, the runtime and result structs with their memory, and the
    text written to stderr so far. *)
Record harness : Type := mkHarness {
  tst : test;
  logmem : Z -> Ascii.ascii;
  log_size : Z;
  mach : machine;
  err : String.string
}.

Definition T (A : Type) : Type := harness -> outcome (A * harness).

Definition tret {A : Type} (a : A) : T A := fun h => Ok (a, h).

Definition tbind {A B : Type} (m : T A) (k : A -> T B) : T B :=
  fun h =>
    match m h with
    | Ok (a, h') => k a h'
    | Undefined => Undefined
    | OutOfFuel => OutOfFuel
    end.

Definition tundefined {A : Type} : T A := fun _ => Undefined.

Declare Scope test_scope.
Delimit Scope test_scope with test.
Notation "x <- m ;; k" := (tbind m (fun x => k))
  (at level 61, m at next level, right associativity) : test_scope.
Notation "m ;; k" := (tbind m (fun _ => k))
  (at level 61, right associativity) : test_scope.
#[local] Open Scope bool_scope.
#[local] Open Scope test_scope.

(** A call of the runtime on the structs the test was handed. *)
Definition lift {A : Type} (m : M A) : T A :=
  fun h =>
    match m (mach h) with
    | Ok (a, w') =>
        Ok (a, mkHarness (tst h) (logmem h) (log_size h) w' (err h))
    | Undefined => Undefined
    | OutOfFuel => OutOfFuel
    end.

Definition load_buf : T Z := fun h => Ok (buf (tst h), h).
Definition load_buf_max : T Z := fun h => Ok (buf_max (tst h), h).
Definition load_cursor : T Z := fun h => Ok (cursor (tst h), h).

Definition store_test (x : test) : T unit :=
  fun h => Ok (tt, mkHarness x (logmem h) (log_size h) (mach h) (err h)).

Definition store_buf (p : Z) : T unit :=
  fun h =>
    store_test (mkTest p (buf_max (tst h)) (cursors (tst h)) (cursor (tst h))) h.

Definition store_cursor (c : Z) : T unit :=
  fun h =>
    store_test (mkTest (buf (tst h)) (buf_max (tst h)) (cursors (tst h)) c) h.

(** [t->cursors[i] = p]; the array has [TEST_MAX] elements. *)
Definition store_cursors_at (i p : Z) : T unit :=
  fun h =>
    if (0 <=? i) && (i <? TEST_MAX) then
      store_test (mkTest (buf (tst h)) (buf_max (tst h))
                         (fun j => if j =? i then p else cursors (tst h) j)
                         (cursor (tst h))) h
    else Undefined.

Definition load_cursors_at (i : Z) : T Z :=
  fun h =>
    if (0 <=? i) && (i <? TEST_MAX) then Ok (cursors (tst h) i, h)
    else Undefined.

(** Pointer arithmetic inside the log block: the result has to point into
    the block or one past its end. *)
Definition ptr_add (p n : Z) : T Z :=
  fun h =>
    if (0 <=? p + n) && (p + n <=? log_size h) then Ok (p + n, h)
    else Undefined.

(** [int] increment. *)
Definition int_succ (i : Z) : T Z :=
  fun h => if i <? INT_MAX then Ok (i + 1, h) else Undefined.

Definition NUL : Ascii.ascii := Ascii.zero.
Definition nl : String.string := String.String (Ascii.ascii_of_nat 10) String.EmptyString.

Definition store_char (m : Z -> Ascii.ascii) (p : Z) (c : Ascii.ascii)
  : Z -> Ascii.ascii :=
  fun q => if q =? p then c else m q.

Fixpoint write_string (m : Z -> Ascii.ascii) (p : Z) (s : String.string)
  : Z -> Ascii.ascii :=
  match s with
  | String.EmptyString => m
  | String.String c s' => write_string (store_char m p c) (p + 1) s'
  end.

(** The length of a text as a C integer. *)
Definition strlen (s : String.string) : Z := Z.of_nat (String.length s).

(** [snprintf(dst, n, ...)] for the formatted text [text]: at most [n - 1]
    characters and a terminator are written, none when [n] is 0; the value
    is the length of the whole text.  Writing outside the block is
    undefined, and so is a text longer than [INT_MAX]. *)
Definition snprintf (dst n : Z) (text : String.string) : T Z :=
  fun h =>
    if INT_MAX <? strlen text then Undefined
    else if n =? 0 then Ok (strlen text, h)
    else
      let k := Z.min (strlen text) (n - 1) in
      if (0 <=? dst) && (dst + k <? log_size h) then
        Ok (strlen text,
            mkHarness (tst h)
                      (store_char
                         (write_string (logmem h) dst
                            (String.substring 0 (Z.to_nat k) text))
                         (dst + k) NUL)
                      (log_size h) (mach h) (err h))
      else Undefined.

(** [fprintf(stderr, ...)] of the formatted text. *)
Definition fprintf_stderr (text : String.string) : T unit :=
  fun h =>
    Ok (tt, mkHarness (tst h) (logmem h) (log_size h) (mach h)
                      (String.append (err h) text)).

(** Conversion of a pointer difference to [size_t]. *)
Definition ptrdiff_to_size_t (d : Z) : Z := d mod 2 ^ 64.

(** [test_finish(t)]: [t->buf++; t->cursor++;] *)
Definition test_finish : T unit :=
  b <- load_buf ;;
  b' <- ptr_add b 1 ;;
  store_buf b' ;;
  c <- load_cursor ;;
  c' <- int_succ c ;;
  store_cursor c'.

(** [test_log(t, ...)] with the formatted text [text], followed by the
    rest [k] of the function the macro is expanded in; the macro returns
    from that function when the buffer is used up. *)
Definition test_log (text : String.string) (k : T test_rt) : T test_rt :=
  b <- load_buf ;;
  bm <- load_buf_max ;;
  n <- snprintf b (ptrdiff_to_size_t (bm - b)) text ;;
  b' <- ptr_add b n ;;
  store_buf b' ;;
  lim <- ptr_add bm (-1) ;;
  if lim <=? b' then
    test_finish ;;
    tret TEST_OOM
  else k.

Definition msg_init : String.string :=
  String.append "  Initializing test"%string nl.

(** [test_init(t)], followed by the rest [k] of the function. *)
Definition test_init (k : T test_rt) : T test_rt :=
  c <- load_cursor ;;
  b <- load_buf ;;
  store_cursors_at c b ;;
  test_log msg_init k.

Definition msg_check (what : String.string) : String.string :=
  String.append "  Check failed: "%string (String.append what nl).

(** [test_check(t, rv, expr, what)], followed by the rest [k] of the
    function, which gets the value of [rv]. *)
Definition test_check (rv : test_rt) (expr : bool) (what : String.string)
    (k : test_rt -> T test_rt) : T test_rt :=
  if negb expr then test_log (msg_check what) (k TEST_FAILED)
  else k rv.

Definition test_rt_init (raw_ : ptr) (raw_size_ : Z) : T test_rt :=
  test_init (
    lift (MPH_rt_init raw_ raw_size_) ;;
    p <- lift load_pos ;;
    test_check TEST_OK (p =? 0) "Position initialized to 0"%string (fun rv =>
    r <- lift load_raw ;;
    test_check rv (r =? raw_) "Memory initialized to raw"%string (fun rv =>
    n <- lift load_raw_size ;;
    test_check rv (n =? raw_size_) "Size initialized to raw_size"%string (fun rv =>
    test_finish ;;
    tret rv)))).

Definition test_rt_cell : T test_rt :=
  test_init (test_finish ;; tret TEST_UNIMPLEMENTED).

Definition test_rt_morph : T test_rt :=
  test_init (test_finish ;; tret TEST_UNIMPLEMENTED).

Definition test_rt_step_morph (m_offs : Z) : T test_rt :=
  test_init (test_finish ;; tret TEST_UNIMPLEMENTED).

Definition kind_is_OK (k : MPH_result_kind) : bool :=
  match k with
  | MPH_OK => true
  | _ => false
  end.

Definition test_rt_rule : T test_rt :=
  test_init (
    r <- lift (MPH_rt_rule test_rule_add) ;;
    test_check TEST_OK (kind_is_OK (t r)) "MPH_rt_rule succeeds"%string (fun rv =>
    test_finish ;;
    tret rv)).

Definition test_rt_step_rule (r_offs : Z) : T test_rt :=
  test_init (test_finish ;; tret TEST_UNIMPLEMENTED).

(** The text at [p] up to its terminator, looking at no more than [fuel]
    bytes. *)
Fixpoint cstring_at (fuel : nat) (m : Z -> Ascii.ascii) (p : Z)
  : option String.string :=
  match fuel with
  | O => None
  | S fuel' =>
      if Ascii.eqb (m p) NUL then Some String.EmptyString
      else option_map (String.String (m p)) (cstring_at fuel' m (p + 1))
  end.

(** The [%s] conversion of a pointer into the log block; a text that is
    not terminated inside the block is read past its end. *)
Definition read_cstring (p : Z) : T String.string :=
  fun h =>
    if (0 <=? p) && (p <? log_size h) then
      match cstring_at (Z.to_nat (log_size h - p)) (logmem h) p with
      | Some s => Ok (s, h)
      | None => Undefined
      end
    else Undefined.

(** [flush_test_logs(stderr, t, i)].  When the assertion fails, [assert]
    writes its diagnostic to stderr and aborts the program; the standard
    leaves the format of that diagnostic to the implementation, so its
    text is the parameter [assert_text].  The value tells whether the
    assertion held; the caller stops when it did not. *)
Definition flush_test_logs (assert_text : string) (i : Z) : T bool :=
  c <- load_cursor ;;
  if i <? c then
    p <- load_cursors_at i ;;
    s <- read_cstring p ;;
    fprintf_stderr (String.append s nl) ;;
    tret true
  else
    fprintf_stderr assert_text ;;
    tret false.

(** One element of the array [tests] of main; [description] is a pointer
    to a string literal or NULL. *)
Record test_entry : Type := mkEntry {
  result : test_rt;
  description : option string;
  done : bool
}.

(** What main returns with, or that an assertion aborted it. *)
Inductive exit : Type :=
| Returned (status : Z)
| Aborted.

(** The [%d] conversion. *)
Definition dec (z : Z) : string :=
  DecimalString.NilZero.string_of_int (Z.to_int z).

(** The text the first switch of the loop selects. *)
Definition result_text (r : test_rt) : string :=
  match r with
  | TEST_OK => "passed"
  | TEST_UNIMPLEMENTED => "unimplemented"
  | TEST_FAILED => "failed"
  | TEST_FATAL => "failed fatally"
  | TEST_OOM => "failed with logger OOM"
  end%string.

Definition msg_test (n : Z) (r : test_rt) (d : string) : string :=
  ("Test " ++ dec n ++ " " ++ result_text r ++ ": " ++ d ++ nl)%string.

Definition msg_totals (total_passed total_failed total : Z) : string :=
  (dec total_passed ++ " passed, " ++ dec total_failed ++ " failed, "
   ++ dec total ++ " total" ++ nl)%string.

(** The [%s] conversion of a description; NULL has no text. *)
Definition load_description (e : test_entry) : T string :=
  match description e with
  | Some d => tret d
  | None => tundefined
  end.

(** The loop of main over [tests] from its element [i] on, and the
    statements after the loop.  [tests] is what is left of the array; the
    header of a test shows [i + 1].  The [free(buf)] before the return
    changes nothing that is read afterwards. *)
Fixpoint main_loop (assert_text : string) (tests : list test_entry)
    (i total_failed total_passed total : Z) : T exit :=
  match tests with
  | [] => tundefined
  | e :: tests' =>
      if done e then
        fprintf_stderr (msg_totals total_passed total_failed total) ;;
        tret (Returned (if total_failed =? 0 then 1 else 0))
      else
        total <- int_succ total ;;
        total_passed <-
          match result e with
          | TEST_OK => int_succ total_passed
          | _ => tret total_passed
          end ;;
        total_failed <-
          match result e with
          | TEST_FAILED => int_succ total_failed
          | _ => tret total_failed
          end ;;
        d <- load_description e ;;
        n <- int_succ i ;;
        fprintf_stderr (msg_test n (result e) d) ;;
        held <- flush_test_logs assert_text i ;;
        if held then
          match result e with
          | TEST_OOM | TEST_FATAL => tret (Returned 1)
          | _ =>
              i' <- int_succ i ;;
              main_loop assert_text tests' i' total_failed total_passed total
          end
        else tret Aborted
  end.

Definition load_ret_data : M Z := fun w => Ok (data (ret w), w).

(** The elements the initialiser of [tests] leaves zeroed. *)
Definition zero_entry : test_entry := mkEntry TEST_OK None false.

(** The initialiser of [tests], its expressions evaluated in the order
    they are written in; [mem_addr] is the address of main's [mem]. *)
Definition main_tests (mem_addr : ptr) : T (list test_entry) :=
  r1 <- test_rt_init mem_addr MPH_DEFAULT_BLOCK ;;
  r2 <- test_rt_cell ;;
  r3 <- test_rt_morph ;;
  d3 <- lift load_ret_data ;;
  r4 <- test_rt_step_morph d3 ;;
  r5 <- test_rt_rule ;;
  d5 <- lift load_ret_data ;;
  r6 <- test_rt_step_rule d5 ;;
  tret ([ mkEntry r1 (Some "Initialize runtime"%string) false;
          mkEntry r2 (Some "Define a new cell"%string) false;
          mkEntry r3 (Some "Create a new morph"%string) false;
          mkEntry r4 (Some "Step through a morph"%string) false;
          mkEntry r5 (Some "Create a new rule"%string) false;
          mkEntry r6 (Some "Step through a rule"%string) false;
          mkEntry TEST_OK None true ]
        ++ repeat zero_entry 93)%list.

(** main after its locals are set up: the tests, then the report;
    [assert_text] is the diagnostic of the implementation's [assert]. *)
Definition main (assert_text : string) (mem_addr : ptr) : T exit :=
  tests <- main_tests mem_addr ;;
  main_loop assert_text tests 0 0 0 0.

(** The six tests, as one call. *)
Inductive test_fn : Type :=
| Test_init (raw_ : ptr) (raw_size_ : Z)
| Test_cell
| Test_morph
| Test_step_morph (m_offs : Z)
| Test_rule
| Test_step_rule (r_offs : Z).

Definition run_test (f : test_fn) : T test_rt :=
  match f with
  | Test_init raw_ raw_size_ => test_rt_init raw_ raw_size_
  | Test_cell => test_rt_cell
  | Test_morph => test_rt_morph
  | Test_step_morph m_offs => test_rt_step_morph m_offs
  | Test_rule => test_rt_rule
  | Test_step_rule r_offs => test_rt_step_rule r_offs
  end.

(** *** States and predicates of the log *)

Definition PTRDIFF_MAX : Z := 2 ^ 63 - 1.

(** The struct and the block agree: [buf] is between the start of the
    block and [buf_max], [buf_max] is inside the block or one past its end,
    the block is an object, and [cursor] counts slots of [cursors]. *)
Definition log_ok (h : harness) : Prop :=
  0 <= buf (tst h) <= buf_max (tst h) /\
  buf_max (tst h) <= log_size h /\
  log_size h <= PTRDIFF_MAX /\
  0 <= cursor (tst h) <= TEST_MAX.

(** The state after [t->cursors[t->cursor] = t->buf]. *)
Definition opened (h : harness) : harness :=
  mkHarness
    (mkTest (buf (tst h)) (buf_max (tst h))
            (fun j => if j =? cursor (tst h) then buf (tst h)
                      else cursors (tst h) j)
            (cursor (tst h)))
    (logmem h) (log_size h) (mach h) (err h).

(** The state after a [test_log] of [text] that went on. *)
Definition logged (text : string) (h : harness) : harness :=
  mkHarness
    (mkTest (buf (tst h) + strlen text) (buf_max (tst h)) (cursors (tst h))
            (cursor (tst h)))
    (store_char (write_string (logmem h) (buf (tst h)) text)
                (buf (tst h) + strlen text) NUL)
    (log_size h) (mach h) (err h).

(** The state after [test_finish]. *)
Definition finished (h : harness) : harness :=
  mkHarness
    (mkTest (buf (tst h) + 1) (buf_max (tst h)) (cursors (tst h))
            (cursor (tst h) + 1))
    (logmem h) (log_size h) (mach h) (err h).

(** The state with the runtime and result structs of [w]. *)
Definition with_mach (w : machine) (h : harness) : harness :=
  mkHarness (tst h) (logmem h) (log_size h) w (err h).

(** The state with [text] added to stderr. *)
Definition printed (text : string) (h : harness) : harness :=
  mkHarness (tst h) (logmem h) (log_size h) (mach h)
            (String.append (err h) text).

(** The characters of [s] are in the block from [p] on. *)
Fixpoint prefix_at (m : Z -> ascii) (p : Z) (s : string) : Prop :=
  match s with
  | EmptyString => True
  | String c s' => m p = c /\ prefix_at m (p + 1) s'
  end.

Fixpoint no_NUL (s : string) : bool :=
  match s with
  | EmptyString => true
  | String c s' => negb (Ascii.eqb c NUL) && no_NUL s'
  end.

(** The C string at [p] is [s]. *)
Definition text_at (m : Z -> ascii) (p : Z) (s : string) : Prop :=
  prefix_at m p s /\ no_NUL s = true /\ m (p + strlen s) = NUL.

(** Slot [i] of [cursors] points to the text [s], which lies with its
    terminator below [buf]. *)
Definition slot_holds (h : harness) (i : Z) (s : string) : Prop :=
  0 <= cursors (tst h) i /\
  cursors (tst h) i + strlen s < buf (tst h) /\
  text_at (logmem h) (cursors (tst h) i) s.

(** What each test returns when the log does not run out, and the text
    it has logged by then. *)
Definition verdict (f : test_fn) : test_rt :=
  match f with
  | Test_init _ _ => TEST_OK
  | Test_rule => TEST_FAILED
  | Test_cell | Test_morph | Test_step_morph _ | Test_step_rule _ =>
      TEST_UNIMPLEMENTED
  end.

Definition msg_rule : string := msg_check "MPH_rt_rule succeeds".

Definition log_text (f : test_fn) : string :=
  match f with
  | Test_rule => String.append msg_init msg_rule
  | _ => msg_init
  end.

(** The runtime and result structs a test leaves. *)
Definition mach_after (f : test_fn) (w : machine) : machine :=
  match f with
  | Test_init raw_ raw_size_ => after_init raw_ raw_size_ w
  | Test_rule => rule_exit w
  | _ => w
  end.

(** The state a test leaves when the log does not run out. *)
Definition after_test (f : test_fn) (h : harness) : harness :=
  match f with
  | Test_rule =>
      finished (logged msg_rule
                  (with_mach (rule_exit (mach h)) (logged msg_init (opened h))))
  | _ =>
      finished (with_mach (mach_after f (mach h)) (logged msg_init (opened h)))
  end.

(** A test that went from [h] to [h'] has taken one slot of [cursors]
    for [text]: the slot that was free points to the text, the text and its
    terminator are the only bytes of the block it used, and the slots and
    texts of the tests before it are as they were. *)
Definition took_slot (text : string) (h h' : harness) : Prop :=
  log_ok h' /\
  cursor (tst h') = cursor (tst h) + 1 /\
  buf (tst h') = buf (tst h) + strlen text + 1 /\
  buf_max (tst h') = buf_max (tst h) /\
  log_size h' = log_size h /\
  err h' = err h /\
  slot_holds h' (cursor (tst h)) text /\
  forall (i : Z) (s : string),
    i <> cursor (tst h) -> slot_holds h i s -> slot_holds h' i s.

(** *** The report of main *)

(** The elements of [tests] before the first one that is marked done. *)
Fixpoint live (tests : list test_entry) : list test_entry :=
  match tests with
  | [] => []
  | e :: tests' => if done e then [] else e :: live tests'
  end.

(** The results on which the second switch of the loop returns. *)
Definition fatal (e : test_entry) : bool :=
  match result e with
  | TEST_OOM | TEST_FATAL => true
  | _ => false
  end.

Definition failed (e : test_entry) : bool :=
  match result e with
  | TEST_FAILED => true
  | _ => false
  end.

(** The status main returns with, from the failures counted before and
    the elements that are still to be reported. *)
Definition status (total_failed : Z) (todo : list test_entry) : Z :=
  if existsb fatal todo then 1
  else if (total_failed =? 0) && negb (existsb failed todo) then 1
  else 0.

(** A block and a struct as main sets them up, before any test. *)
Definition fresh (cursors0 : Z -> Z) (logmem0 : Z -> ascii) (w : machine)
  : harness :=
  mkHarness (mkTest 0 TEST_BUF_MEM cursors0 0) logmem0 TEST_BUF_MEM w
            EmptyString.

(** A cleared block with the structs of [test_start]. *)
Definition fresh_test : harness :=
  fresh (fun _ => 0) (fun _ => NUL) test_start.

(** What main writes to stderr. *)
Definition main_report : string :=
  (msg_test 1 TEST_OK "Initialize runtime" ++ msg_init ++ nl
   ++ msg_test 2 TEST_UNIMPLEMENTED "Define a new cell" ++ msg_init ++ nl
   ++ msg_test 3 TEST_UNIMPLEMENTED "Create a new morph" ++ msg_init ++ nl
   ++ msg_test 4 TEST_UNIMPLEMENTED "Step through a morph" ++ msg_init ++ nl
   ++ msg_test 5 TEST_FAILED "Create a new rule"
   ++ msg_init ++ msg_rule ++ nl
   ++ msg_test 6 TEST_UNIMPLEMENTED "Step through a rule" ++ msg_init ++ nl
   ++ msg_totals 1 1 6)%string.

(** The cleared block after the rule test, and after a stub test. *)
Definition after_rule_test : harness := after_test Test_rule fresh_test.
Definition after_cell_test : harness := after_test Test_cell fresh_test.

(** A diagnostic in the format of the GNU C library. *)
Definition assert_text_gnu : string :=
  String.append
    "main_test: main_test.c:34: flush_test_logs: Assertion `i < t->cursor' failed."
    nl.

(** An array of one failed test and the element that ends it. *)
Definition one_failed : list test_entry :=
  [ mkEntry TEST_FAILED (Some "Create a new rule"%string) false;
    mkEntry TEST_OK None true ].

End Harness.

(** * Properties *)

(** ** C arithmetic and the arena view *)

Lemma size_add_0_r (a : Z) : size_t_ok a -> size_add a 0 = a.
Proof.
  unfold size_t_ok, size_add, SIZE_MAX. intros H.
  rewrite Z.add_0_r. apply Z.mod_small. lia.
Qed.

Lemma int_to_size_t_small (i : Z) : 0 <= i <= INT_MAX -> int_to_size_t i = i.
Proof.
  unfold int_to_size_t, INT_MAX. intros H.
  apply Z.mod_small. lia.
Qed.

Lemma arena_frame (w w' : machine) :
  rt w' = rt w -> mem w' = mem w -> arena w' = arena w.
Proof.
  unfold arena. intros -> ->. reflexivity.
Qed.

(** ** Unfolding equations of the straight-line functions *)

Lemma MPH_rt_init_eq (store : ptr) (capacity : Z) (w : machine) :
  MPH_rt_init store capacity w =
  Ok (tt, mkMachine (mkRuntime store capacity 0) (ret w) (mem w) (steps w)).
Proof. reflexivity. Qed.

Lemma MPH_rt_cell_eq (c : MPH_cell) (w : machine) :
  MPH_rt_cell c w =
  Ok (mkResult MPH_TOTALITY_FAULT (data (ret w)),
      mkMachine (rt w) (mkResult MPH_TOTALITY_FAULT (data (ret w)))
                (mem w) (steps w)).
Proof. reflexivity. Qed.

Lemma MPH_rt_morph_eq (m : MPH_morph) (w : machine) :
  MPH_rt_morph m w =
  Ok (mkResult MPH_TOTALITY_FAULT (data (ret w)),
      mkMachine (rt w) (mkResult MPH_TOTALITY_FAULT (data (ret w)))
                (mem w) (steps w)).
Proof. reflexivity. Qed.

Lemma MPH_rt_step_eq (w : machine) :
  MPH_rt_step w =
  Ok (mkResult MPH_HALT (data (ret w)),
      mkMachine (rt w) (mkResult MPH_HALT (data (ret w)))
                (mem w) (S (steps w))).
Proof. reflexivity. Qed.

Lemma MPH_rt_exec_eq (w : machine) :
  MPH_rt_exec w =
  Ok (mkResult MPH_HALT (data (ret w)),
      mkMachine (rt w) (mkResult MPH_HALT (data (ret w)))
                (mem w) (steps w)).
Proof. reflexivity. Qed.

(** ** The loop of MPH_rt_rule *)

Lemma INT_MAX_eq : INT_MAX = 2147483647.
Proof. reflexivity. Qed.

(** One pass through the body writes back the position it read. *)
Lemma after_body_id (w : machine) :
  size_t_ok (pos (rt w)) -> after_body w = w.
Proof.
  intros Hpos. destruct w as [[r n p] res m s]. simpl in Hpos.
  unfold after_body. simpl.
  rewrite (size_add_0_r p Hpos). reflexivity.
Qed.

Lemma rule_loop_step (fuel : nat) (i : Z) (rule : MPH_rule) (w : machine) :
  0 <= i <= INT_MAX -> i < len rule ->
  MPH_rt_rule_loop (S fuel) i rule w =
  if i <? INT_MAX then MPH_rt_rule_loop fuel (i + 1) rule (after_body w)
  else Undefined.
Proof.
  intros Hi Hlt. cbn [MPH_rt_rule_loop].
  rewrite (int_to_size_t_small i Hi).
  destruct (Z.ltb_spec i (len rule)) as [_ | Hge]; [ | lia ].
  unfold bind, load_pos, store_pos, store_rt, after_body.
  destruct (i <? INT_MAX); reflexivity.
Qed.

Lemma rule_loop_exit (fuel : nat) (i : Z) (rule : MPH_rule) (w : machine) :
  0 <= i <= INT_MAX -> len rule <= i ->
  MPH_rt_rule_loop fuel i rule w = Ok (tt, w).
Proof.
  intros Hi Hge.
  destruct fuel; cbn [MPH_rt_rule_loop];
    rewrite (int_to_size_t_small i Hi);
    (destruct (Z.ltb_spec i (len rule)) as [Hlt | _]; [ lia | reflexivity ]).
Qed.

(** A count within [int] is reached without touching the runtime. *)
Lemma rule_loop_ok (fuel : nat) :
  forall (i : Z) (rule : MPH_rule) (w : machine),
    0 <= i <= INT_MAX -> len rule <= INT_MAX ->
    (Z.to_nat (len rule - i) <= fuel)%nat ->
    size_t_ok (pos (rt w)) ->
    MPH_rt_rule_loop fuel i rule w = Ok (tt, w).
Proof.
  induction fuel as [ | fuel IH]; intros i rule w Hi Hlen Hfuel Hpos.
  - destruct (Z_lt_le_dec i (len rule)) as [Hlt | Hge]; [ lia | ].
    apply rule_loop_exit; [ lia | exact Hge ].
  - destruct (Z_lt_le_dec i (len rule)) as [Hlt | Hge].
    + rewrite rule_loop_step by lia.
      rewrite (after_body_id w Hpos).
      destruct (Z.ltb_spec i INT_MAX) as [_ | Hmax]; [ | lia ].
      apply IH; try lia. exact Hpos.
    + apply rule_loop_exit; [ lia | exact Hge ].
Qed.

(** A count beyond [int] overflows the counter. *)
Lemma rule_loop_undefined (fuel : nat) :
  forall (i : Z) (rule : MPH_rule) (w : machine),
    0 <= i <= INT_MAX -> INT_MAX < len rule ->
    (Z.to_nat (INT_MAX + 1 - i) <= fuel)%nat ->
    MPH_rt_rule_loop fuel i rule w = Undefined.
Proof.
  induction fuel as [ | fuel IH]; intros i rule w Hi Hlen Hfuel.
  - lia.
  - rewrite rule_loop_step by lia.
    destruct (Z.ltb_spec i INT_MAX) as [Hlt | _]; [ | reflexivity ].
    apply IH; lia.
Qed.

(** The fuel the function takes is never what stops the loop. *)
Lemma rule_loop_fuel_suffices (fuel : nat) :
  forall (i : Z) (rule : MPH_rule) (w : machine),
    0 <= i <= INT_MAX ->
    (Z.to_nat (Z.min (len rule) (INT_MAX + 1) - i) <= fuel)%nat ->
    MPH_rt_rule_loop fuel i rule w <> OutOfFuel.
Proof.
  induction fuel as [ | fuel IH]; intros i rule w Hi Hfuel.
  - rewrite rule_loop_exit by lia. discriminate.
  - destruct (Z_lt_le_dec i (len rule)) as [Hlt | Hge].
    + rewrite rule_loop_step by lia.
      destruct (Z.ltb_spec i INT_MAX) as [Hlt' | _]; [ | discriminate ].
      apply IH; lia.
    + rewrite rule_loop_exit by lia. discriminate.
Qed.

(** ** MPH_rt_rule as a whole *)

Lemma MPH_rt_rule_eq (rule : MPH_rule) (w : machine) :
  MPH_rt_rule rule w =
  match MPH_rt_rule_loop (MPH_rt_rule_fuel rule) 0 rule (rule_entry w) with
  | Ok (_, w') => (store_ret_t MPH_TOTALITY_FAULT ;; return_ret) w'
  | Undefined => Undefined
  | OutOfFuel => OutOfFuel
  end.
Proof. reflexivity. Qed.

(** Within [int], the rule call returns: always TOTALITY_FAULT, with the
    position in [data], and nothing else written. *)
Lemma MPH_rt_rule_defined (rule : MPH_rule) (w : machine) :
  size_t_ok (pos (rt w)) -> len rule <= INT_MAX ->
  MPH_rt_rule rule w =
  Ok (mkResult MPH_TOTALITY_FAULT (pos (rt w)), rule_exit w).
Proof.
  intros Hpos Hlen. rewrite MPH_rt_rule_eq.
  rewrite rule_loop_ok; [ reflexivity | | exact Hlen | | exact Hpos ].
  - rewrite INT_MAX_eq. lia.
  - unfold MPH_rt_rule_fuel. rewrite INT_MAX_eq in *. lia.
Qed.

(** Beyond [int], the counter overflows: the call has no defined result. *)
Lemma MPH_rt_rule_undefined (rule : MPH_rule) (w : machine) :
  INT_MAX < len rule -> MPH_rt_rule rule w = Undefined.
Proof.
  intros Hlen. rewrite MPH_rt_rule_eq.
  rewrite rule_loop_undefined; [ reflexivity | | exact Hlen | ].
  - rewrite INT_MAX_eq. lia.
  - unfold MPH_rt_rule_fuel. rewrite INT_MAX_eq in *. lia.
Qed.

Lemma MPH_rt_rule_fuel_suffices (rule : MPH_rule) (w : machine) :
  MPH_rt_rule rule w <> OutOfFuel.
Proof.
  rewrite MPH_rt_rule_eq.
  pose proof (rule_loop_fuel_suffices (MPH_rt_rule_fuel rule) 0 rule
                (rule_entry w)) as Hfuel.
  destruct (MPH_rt_rule_loop (MPH_rt_rule_fuel rule) 0 rule (rule_entry w))
    as [[u w'] | | ].
  - discriminate.
  - discriminate.
  - exfalso. apply Hfuel; [ | | reflexivity ].
    + rewrite INT_MAX_eq. lia.
    + unfold MPH_rt_rule_fuel. lia.
Qed.

(** Whatever the rule call returns, it is the fault of [rule_exit]. *)
Lemma MPH_rt_rule_inv (rule : MPH_rule) (w w' : machine) (r : MPH_result) :
  size_t_ok (pos (rt w)) ->
  MPH_rt_rule rule w = Ok (r, w') ->
  r = mkResult MPH_TOTALITY_FAULT (pos (rt w)) /\ w' = rule_exit w.
Proof.
  intros Hpos Hcall.
  destruct (Z_le_gt_dec (len rule) INT_MAX) as [Hle | Hgt].
  - rewrite (MPH_rt_rule_defined rule w Hpos Hle) in Hcall.
    injection Hcall as <- <-. split; reflexivity.
  - rewrite MPH_rt_rule_undefined in Hcall by lia. discriminate Hcall.
Qed.

(** No call of the two encoders ever reports OK. *)
Lemma MPH_rt_morph_never_OK (m : MPH_morph) (w w' : machine) (r : MPH_result) :
  MPH_rt_morph m w = Ok (r, w') -> t r = MPH_TOTALITY_FAULT.
Proof.
  rewrite MPH_rt_morph_eq. intros Hcall.
  injection Hcall as <- _. reflexivity.
Qed.

Lemma MPH_rt_rule_never_OK (rule : MPH_rule) (w w' : machine) (r : MPH_result) :
  MPH_rt_rule rule w = Ok (r, w') -> t r = MPH_TOTALITY_FAULT.
Proof.
  rewrite MPH_rt_rule_eq.
  destruct (MPH_rt_rule_loop (MPH_rt_rule_fuel rule) 0 rule (rule_entry w))
    as [[u w1] | | ]; try discriminate.
  intros Hcall. injection Hcall as <- _. reflexivity.
Qed.

(** Every call but an overflowing rule count returns. *)
Lemma call_returns (o : operation) (w : machine) :
  size_t_ok (pos (rt w)) ->
  (forall rule, o = Op_rule rule -> len rule <= INT_MAX) ->
  exists r w', call o w = Ok (r, w').
Proof.
  intros Hpos Hrule. destruct o as [m | rule | c | ]; simpl.
  - rewrite MPH_rt_morph_eq. eauto.
  - rewrite (MPH_rt_rule_defined rule w Hpos (Hrule rule eq_refl)). eauto.
  - rewrite MPH_rt_cell_eq. eauto.
  - rewrite MPH_rt_step_eq. eauto.
Qed.

(** ** The documented run loop *)

(** The iteration ends at its first step, with the result and the runtime
    [MPH_rt_exec] gives; only the count of steps differs. *)
Lemma exec_by_steps_halts (fuel : nat) (w : machine) :
  exec_by_steps (S fuel) w =
  Ok (mkResult MPH_HALT (data (ret w)),
      mkMachine (rt w) (mkResult MPH_HALT (data (ret w)))
                (mem w) (S (steps w))).
Proof. reflexivity. Qed.

(** ** The test arena *)

(** Every word of the arena of the test runtime is 0. *)
Lemma test_ready_arena_zero (x : MPH_raw) : In x (arena test_ready) -> x = 0.
Proof.
  unfold arena. intros Hin.
  apply in_map_iff in Hin. destruct Hin as [i [Hx _]].
  symmetry. exact Hx.
Qed.

(** ** Initialisation *)

(** C8: for every backing store and every capacity C > 0, MPH_rt_init
    returns, and afterwards the position is 0, the raw pointer is the given
    store and the recorded size is C; the result struct and the memory are
    not written. *)
Theorem MPH_rt_init_binds_store (w : machine) (store : ptr) (capacity : Z) :
  0 < capacity ->
  exists w',
    MPH_rt_init store capacity w = Ok (tt, w') /\
    pos (rt w') = 0 /\ raw (rt w') = store /\ raw_size (rt w') = capacity /\
    cursor w' = 0 /\ ret w' = ret w /\ mem w' = mem w.
Proof.
  intros _. rewrite MPH_rt_init_eq.
  eexists. split; [ reflexivity | ]. simpl. unfold cursor. simpl.
  repeat split; reflexivity.
Qed.

Lemma MPH_rt_init_binds_store_witness :
  0 < MPH_DEFAULT_BLOCK /\
  exists w',
    MPH_rt_init test_mem_addr MPH_DEFAULT_BLOCK test_start = Ok (tt, w') /\
    pos (rt w') = 0 /\ raw (rt w') = test_mem_addr /\
    raw_size (rt w') = MPH_DEFAULT_BLOCK /\
    cursor w' = 0 /\ ret w' = ret test_start /\ mem w' = mem test_start.
Proof.
  split; [ reflexivity | ].
  apply (MPH_rt_init_binds_store test_start test_mem_addr MPH_DEFAULT_BLOCK).
  reflexivity.
Defined.

(** ** Cells *)

(** C10: for every runtime and every cell descriptor, MPH_rt_cell returns
    TOTALITY_FAULT, leaves the data payload of the result as it was, and
    leaves the runtime (arena, cursor, pos) unchanged. *)
Theorem MPH_rt_cell_faults_in_place (c : MPH_cell) (w : machine) :
  exists r w',
    MPH_rt_cell c w = Ok (r, w') /\
    t r = MPH_TOTALITY_FAULT /\ data r = data (ret w) /\ ret w' = r /\
    rt w' = rt w /\ mem w' = mem w /\
    arena w' = arena w /\ cursor w' = cursor w.
Proof.
  rewrite MPH_rt_cell_eq.
  do 2 eexists. split; [ reflexivity | ].
  repeat split; reflexivity.
Qed.

(** ** Step and exec *)

(** C9: for every runtime state, MPH_rt_step and MPH_rt_exec both return
    HALT (so never OK, MEM_LOW or TOTALITY_FAULT) and leave every runtime
    field, the position among them, and the arena contents unchanged. *)
Theorem MPH_rt_step_exec_halt_in_place (w : machine) :
  (exists r w',
      MPH_rt_step w = Ok (r, w') /\
      t r = MPH_HALT /\ ret w' = r /\
      rt w' = rt w /\ mem w' = mem w /\ arena w' = arena w) /\
  (exists r w',
      MPH_rt_exec w = Ok (r, w') /\
      t r = MPH_HALT /\ ret w' = r /\
      rt w' = rt w /\ mem w' = mem w /\ arena w' = arena w).
Proof.
  rewrite MPH_rt_step_eq, MPH_rt_exec_eq.
  split; do 2 eexists; (split; [ reflexivity | repeat split; reflexivity ]).
Qed.



(** ** Morph encoding *)

(** C4: for every operator and every operand count that differs from the
    operator's fixed arity, MPH_rt_morph returns TOTALITY_FAULT, leaves the
    arena contents unchanged and does not advance the cursor. *)
Theorem MPH_rt_morph_arity_fault (m : MPH_morph) (w : machine) :
  args m <> MPH_op_arity (op m) ->
  exists r w',
    MPH_rt_morph m w = Ok (r, w') /\
    t r = MPH_TOTALITY_FAULT /\
    arena w' = arena w /\ cursor w' = cursor w /\
    rt w' = rt w /\ mem w' = mem w.
Proof.
  intros _. rewrite MPH_rt_morph_eq.
  do 2 eexists. split; [ reflexivity | ].
  repeat split; reflexivity.
Qed.

Lemma MPH_rt_morph_arity_fault_witness :
  args morph_add_3 <> MPH_op_arity (op morph_add_3) /\
  exists r w',
    MPH_rt_morph morph_add_3 test_ready = Ok (r, w') /\
    t r = MPH_TOTALITY_FAULT /\
    arena w' = arena test_ready /\ cursor w' = cursor test_ready /\
    rt w' = rt test_ready /\ mem w' = mem test_ready.
Proof.
  split; [ discriminate | ].
  apply (MPH_rt_morph_arity_fault morph_add_3 test_ready).
  discriminate.
Defined.

(** C2: on the initialised test runtime (512 free words), encoding the ADD
    morph reports TOTALITY_FAULT, not OK; stepping from the offset left in
    the result reports HALT, not OK, and no cell is appended: the arena and
    the runtime are as before and no word of the arena is 5. *)
Theorem MPH_rt_morph_add_not_encoded :
  exists r1 w1 r2 w2,
    MPH_rt_morph morph_add test_ready = Ok (r1, w1) /\
    t r1 = MPH_TOTALITY_FAULT /\
    (set_pos_to_data ;; MPH_rt_step) w1 = Ok (r2, w2) /\
    t r2 = MPH_HALT /\
    rt w2 = rt test_ready /\ arena w2 = arena test_ready /\
    ~ In 5 (arena w2).
Proof.
  do 4 eexists.
  split; [ reflexivity | ]. split; [ reflexivity | ].
  split; [ reflexivity | ]. split; [ reflexivity | ].
  split; [ reflexivity | ]. split; [ reflexivity | ].
  intros Hin. apply test_ready_arena_zero in Hin. discriminate Hin.
Qed.

(** ** Rule encoding *)

(** C3: the call of test_rt_rule, a rule of one condition and one action
    (equal lengths) on the initialised runtime with 512 free words, returns
    TOTALITY_FAULT where the test checks for OK; the data of the result is
    the position, 0, and the arena and the cursor are as before. *)
Theorem MPH_rt_rule_test_reports_fault :
  length (conds test_rule_add) = length (morphs test_rule_add) /\
  rule_words_min test_rule_add <= remaining test_ready /\
  exists w',
    MPH_rt_rule test_rule_add test_ready =
      Ok (mkResult MPH_TOTALITY_FAULT 0, w') /\
    t (ret w') <> MPH_OK /\
    arena w' = arena test_ready /\ cursor w' = cursor test_ready.
Proof.
  split; [ reflexivity | ].
  split; [ discriminate | ].
  eexists. split; [ reflexivity | ].
  split; [ discriminate | ].
  split; reflexivity.
Qed.

(** ** Exhausted arena *)

(** C5: on a runtime with one free word, an ADD morph (three words) and the
    one-condition rule (at least two words) do not fit; both calls leave the
    arena and the cursor as they were, and both report TOTALITY_FAULT, not
    MEM_LOW: the morph with the data of the result untouched, the rule with
    the position in it. *)
Theorem encoders_report_fault_when_full :
  remaining one_word_ready < morph_words morph_add /\
  remaining one_word_ready < rule_words_min test_rule_add /\
  (exists w',
      MPH_rt_morph morph_add one_word_ready =
        Ok (mkResult MPH_TOTALITY_FAULT (data (ret one_word_ready)), w') /\
      arena w' = arena one_word_ready /\ cursor w' = cursor one_word_ready) /\
  (exists w',
      MPH_rt_rule test_rule_add one_word_ready =
        Ok (mkResult MPH_TOTALITY_FAULT (pos (rt one_word_ready)), w') /\
      arena w' = arena one_word_ready /\ cursor w' = cursor one_word_ready).
Proof.
  split; [ reflexivity | ].
  split; [ reflexivity | ].
  split; eexists; (split; [ reflexivity | split; reflexivity ]).
Qed.

(** ** Atomic failure *)

(** C6: for each of MPH_rt_morph, MPH_rt_rule, MPH_rt_cell and MPH_rt_step
    and every input, when the call returns a result of kind TOTALITY_FAULT
    or MEM_LOW, the arena contents, the cursor and the position (all of the
    runtime struct and of the memory) are the same after the call as
    before. *)
Theorem fault_leaves_runtime_unchanged
    (o : operation) (w w' : machine) (r : MPH_result) :
  size_t_ok (pos (rt w)) ->
  call o w = Ok (r, w') ->
  t r = MPH_TOTALITY_FAULT \/ t r = MPH_MEM_LOW ->
  arena w' = arena w /\ cursor w' = cursor w /\ pos (rt w') = pos (rt w) /\
  rt w' = rt w /\ mem w' = mem w.
Proof.
  intros Hpos Hcall _.
  assert (Hframe : rt w' = rt w /\ mem w' = mem w).
  { destruct o as [m | rule | c | ]; simpl in Hcall.
    - rewrite MPH_rt_morph_eq in Hcall. injection Hcall as _ <-.
      split; reflexivity.
    - destruct (MPH_rt_rule_inv rule w w' r Hpos Hcall) as [_ ->].
      split; reflexivity.
    - rewrite MPH_rt_cell_eq in Hcall. injection Hcall as _ <-.
      split; reflexivity.
    - rewrite MPH_rt_step_eq in Hcall. injection Hcall as _ <-.
      split; reflexivity. }
  destruct Hframe as [Hrt Hmem].
  split; [ apply arena_frame; assumption | ].
  unfold cursor. rewrite Hrt. repeat split; assumption.
Qed.

Lemma fault_leaves_runtime_unchanged_witness :
  size_t_ok (pos (rt test_ready)) /\
  call (Op_rule test_rule_add) test_ready =
    Ok (mkResult MPH_TOTALITY_FAULT 0, rule_exit test_ready) /\
  arena (rule_exit test_ready) = arena test_ready /\
  cursor (rule_exit test_ready) = cursor test_ready /\
  pos (rt (rule_exit test_ready)) = pos (rt test_ready) /\
  rt (rule_exit test_ready) = rt test_ready /\
  mem (rule_exit test_ready) = mem test_ready.
Proof.
  split; [ unfold size_t_ok, SIZE_MAX; simpl; lia | ].
  split; [ reflexivity | ].
  apply (fault_leaves_runtime_unchanged (Op_rule test_rule_add) test_ready
           (rule_exit test_ready) (mkResult MPH_TOTALITY_FAULT 0)).
  - unfold size_t_ok, SIZE_MAX; simpl; lia.
  - reflexivity.
  - left; reflexivity.
Defined.

(** ** Rule evaluation *)

(** C7: after the rule call of test_rt_rule, stepping the runtime at the
    offset the call left in the result reports HALT with the runtime struct
    and the arena as they were before the rule call: neither the action
    paired with the condition nor a default has produced a result cell or
    moved the position. *)
Theorem MPH_rt_step_at_rule_runs_no_action :
  exists r1 w1 r2 w2,
    MPH_rt_rule test_rule_add test_ready = Ok (r1, w1) /\
    (set_pos_to_data ;; MPH_rt_step) w1 = Ok (r2, w2) /\
    t r2 = MPH_HALT /\ data r2 = data r1 /\
    rt w2 = rt test_ready /\ arena w2 = arena test_ready /\
    cursor w2 = cursor test_ready.
Proof.
  do 4 eexists.
  split; [ reflexivity | ]. split; [ reflexivity | ].
  repeat split; reflexivity.
Qed.

(** * Further properties of the runtime *)

(** ** MPH_rt_rule on every rule *)

(** X1: for every rule whose count fits an int and every runtime whose
    position is a size_t value, MPH_rt_rule returns TOTALITY_FAULT with the
    position on entry in data, whatever the result struct held before; the
    runtime struct, the memory and the step count are not changed. *)
Theorem MPH_rt_rule_reports_position (rule : MPH_rule) (w : machine) :
  size_t_ok (pos (rt w)) -> len rule <= INT_MAX ->
  exists w',
    MPH_rt_rule rule w =
      Ok (mkResult MPH_TOTALITY_FAULT (pos (rt w)), w') /\
    ret w' = mkResult MPH_TOTALITY_FAULT (pos (rt w)) /\
    rt w' = rt w /\ mem w' = mem w /\ steps w' = steps w.
Proof.
  intros Hpos Hlen. exists (rule_exit w).
  split; [ apply MPH_rt_rule_defined; assumption | ].
  repeat split; reflexivity.
Qed.

Lemma MPH_rt_rule_reports_position_witness :
  size_t_ok (pos (rt test_ready)) /\ len test_rule_add <= INT_MAX /\
  exists w',
    MPH_rt_rule test_rule_add test_ready =
      Ok (mkResult MPH_TOTALITY_FAULT (pos (rt test_ready)), w') /\
    ret w' = mkResult MPH_TOTALITY_FAULT (pos (rt test_ready)) /\
    rt w' = rt test_ready /\ mem w' = mem test_ready /\
    steps w' = steps test_ready.
Proof.
  split; [ unfold size_t_ok, SIZE_MAX; simpl; lia | ].
  split; [ discriminate | ].
  apply (MPH_rt_rule_reports_position test_rule_add test_ready).
  - unfold size_t_ok, SIZE_MAX; simpl; lia.
  - discriminate.
Defined.

(** X2: MPH_rt_rule returns exactly for the rules whose count fits an int:
    a larger count drives the int loop counter past INT_MAX, which is
    undefined, on every runtime. *)
Theorem MPH_rt_rule_returns_iff_count_fits (rule : MPH_rule) (w : machine) :
  size_t_ok (pos (rt w)) ->
  ((exists r w', MPH_rt_rule rule w = Ok (r, w')) <-> len rule <= INT_MAX) /\
  (INT_MAX < len rule -> MPH_rt_rule rule w = Undefined).
Proof.
  intros Hpos. split; [ split | ].
  - intros [r [w' Hcall]].
    destruct (Z_le_gt_dec (len rule) INT_MAX) as [Hle | Hgt]; [ exact Hle | ].
    rewrite MPH_rt_rule_undefined in Hcall by lia. discriminate Hcall.
  - intros Hle. rewrite (MPH_rt_rule_defined rule w Hpos Hle). eauto.
  - apply MPH_rt_rule_undefined.
Qed.

Lemma MPH_rt_rule_returns_iff_count_fits_witness :
  size_t_ok (pos (rt test_ready)) /\
  ((exists r w', MPH_rt_rule rule_too_long test_ready = Ok (r, w')) <->
   len rule_too_long <= INT_MAX) /\
  (INT_MAX < len rule_too_long ->
   MPH_rt_rule rule_too_long test_ready = Undefined).
Proof.
  split; [ unfold size_t_ok, SIZE_MAX; simpl; lia | ].
  apply (MPH_rt_rule_returns_iff_count_fits rule_too_long test_ready).
  unfold size_t_ok, SIZE_MAX; simpl; lia.
Defined.

(** The loop reads the count of the rule and nothing else of it. *)
Lemma rule_loop_reads_len_only (fuel : nat) :
  forall (i : Z) (rule1 rule2 : MPH_rule) (w : machine),
    len rule1 = len rule2 ->
    MPH_rt_rule_loop fuel i rule1 w = MPH_rt_rule_loop fuel i rule2 w.
Proof.
  induction fuel as [ | fuel IH]; intros i rule1 rule2 w Hlen;
    cbn [MPH_rt_rule_loop]; rewrite Hlen.
  - reflexivity.
  - destruct (int_to_size_t i <? len rule2); [ | reflexivity ].
    unfold bind, load_pos, store_pos, store_rt.
    destruct (i <? INT_MAX); [ | reflexivity ].
    apply IH. exact Hlen.
Qed.

(** X3: MPH_rt_rule never reads the condition and action arrays: two rules
    with the same count have the same outcome on every runtime, be it a
    returned result or undefined behaviour, also when the arrays differ in
    content or in length. *)
Theorem MPH_rt_rule_ignores_arrays (rule1 rule2 : MPH_rule) (w : machine) :
  len rule1 = len rule2 ->
  MPH_rt_rule rule1 w = MPH_rt_rule rule2 w.
Proof.
  intros Hlen. rewrite !MPH_rt_rule_eq.
  unfold MPH_rt_rule_fuel. rewrite Hlen.
  rewrite (rule_loop_reads_len_only _ 0 rule1 rule2 (rule_entry w) Hlen).
  reflexivity.
Qed.

Lemma MPH_rt_rule_ignores_arrays_witness :
  len rule_uneven = len test_rule_add /\
  MPH_rt_rule rule_uneven test_ready = MPH_rt_rule test_rule_add test_ready.
Proof.
  split; [ reflexivity | ].
  apply (MPH_rt_rule_ignores_arrays rule_uneven test_rule_add test_ready).
  reflexivity.
Defined.

(** ** What every call reports *)

(** The loop of MPH_rt_rule writes neither the result struct nor memory. *)
Lemma rule_loop_keeps_ret (fuel : nat) :
  forall (i : Z) (rule : MPH_rule) (w w' : machine) (u : unit),
    MPH_rt_rule_loop fuel i rule w = Ok (u, w') ->
    ret w' = ret w /\ mem w' = mem w /\ steps w' = steps w /\
    raw (rt w') = raw (rt w) /\ raw_size (rt w') = raw_size (rt w).
Proof.
  induction fuel as [ | fuel IH]; intros i rule w w' u;
    cbn [MPH_rt_rule_loop];
    destruct (int_to_size_t i <? len rule).
  - discriminate.
  - intros Hloop. injection Hloop as _ <-. repeat split; reflexivity.
  - unfold bind, load_pos, store_pos, store_rt.
    destruct (i <? INT_MAX); [ | discriminate ].
    intros Hloop. apply IH in Hloop. exact Hloop.
  - intros Hloop. injection Hloop as _ <-. repeat split; reflexivity.
Qed.

(** X4: whatever call of MPH_rt_morph, MPH_rt_rule, MPH_rt_cell or
    MPH_rt_step returns, and MPH_rt_exec alike, the kind is the fault of
    the encoders or the HALT of the evaluator, never OK and never MEM_LOW;
    the payload is written by MPH_rt_rule alone (the position on entry), the
    other calls hand back the data the caller left in the struct. *)
Theorem call_reports_stored_kind
    (o : operation) (w w' : machine) (r : MPH_result) :
  call o w = Ok (r, w') ->
  t r = stored_kind o /\ t r <> MPH_OK /\ t r <> MPH_MEM_LOW /\
  data r = match o with
           | Op_rule _ => pos (rt w)
           | _ => data (ret w)
           end /\
  ret w' = r /\
  exists r_exec w_exec,
    MPH_rt_exec w' = Ok (r_exec, w_exec) /\
    t r_exec = MPH_HALT /\ data r_exec = data r.
Proof.
  intros Hcall.
  assert (Hres : r = mkResult (stored_kind o)
                      match o with
                      | Op_rule _ => pos (rt w)
                      | _ => data (ret w)
                      end /\ ret w' = r).
  { destruct o as [m | rule | c | ]; simpl in Hcall.
    - rewrite MPH_rt_morph_eq in Hcall. injection Hcall as <- <-.
      split; reflexivity.
    - rewrite MPH_rt_rule_eq in Hcall.
      destruct (MPH_rt_rule_loop (MPH_rt_rule_fuel rule) 0 rule (rule_entry w))
        as [[u w1] | | ] eqn:Hloop; try discriminate.
      apply rule_loop_keeps_ret in Hloop. destruct Hloop as [Hret _].
      unfold bind, store_ret_t, store_ret, return_ret in Hcall.
      injection Hcall as <- <-. rewrite Hret. split; reflexivity.
    - rewrite MPH_rt_cell_eq in Hcall. injection Hcall as <- <-.
      split; reflexivity.
    - rewrite MPH_rt_step_eq in Hcall. injection Hcall as <- <-.
      split; reflexivity. }
  destruct Hres as [-> Hret]. simpl.
  split; [ reflexivity | ].
  split; [ destruct o; discriminate | ].
  split; [ destruct o; discriminate | ].
  split; [ reflexivity | ].
  split; [ exact Hret | ].
  rewrite MPH_rt_exec_eq. do 2 eexists.
  split; [ reflexivity | ]. rewrite Hret. split; reflexivity.
Qed.

Lemma call_reports_stored_kind_witness :
  call (Op_morph morph_add) test_ready =
    Ok (mkResult MPH_TOTALITY_FAULT 0, test_ready_faulted) /\
  t (mkResult MPH_TOTALITY_FAULT 0) = stored_kind (Op_morph morph_add) /\
  t (mkResult MPH_TOTALITY_FAULT 0) <> MPH_OK /\
  t (mkResult MPH_TOTALITY_FAULT 0) <> MPH_MEM_LOW /\
  data (mkResult MPH_TOTALITY_FAULT 0) = data (ret test_ready) /\
  ret test_ready_faulted = mkResult MPH_TOTALITY_FAULT 0 /\
  exists r_exec w_exec,
    MPH_rt_exec test_ready_faulted = Ok (r_exec, w_exec) /\
    t r_exec = MPH_HALT /\
    data r_exec = data (mkResult MPH_TOTALITY_FAULT 0).
Proof.
  split; [ reflexivity | ].
  apply (call_reports_stored_kind (Op_morph morph_add) test_ready
           test_ready_faulted (mkResult MPH_TOTALITY_FAULT 0)).
  reflexivity.
Defined.

(** ** Sessions *)

Lemma run_calls_cons (o : operation) (os : list operation) (w : machine) :
  run_calls (o :: os) w =
  match call o w with
  | Ok (r, w1) =>
      match run_calls os w1 with
      | Ok (rs, w2) => Ok (r :: rs, w2)
      | Undefined => Undefined
      | OutOfFuel => OutOfFuel
      end
  | Undefined => Undefined
  | OutOfFuel => OutOfFuel
  end.
Proof.
  cbn [run_calls]. unfold bind, mret.
  destruct (call o w) as [[r w1] | | ]; reflexivity.
Qed.

(** One call, as a function of the state it starts in. *)
Lemma call_defined (o : operation) (w : machine) :
  size_t_ok (pos (rt w)) ->
  (forall rule, o = Op_rule rule -> len rule <= INT_MAX) ->
  exists r,
    call o w =
      Ok (r, mkMachine (rt w) r (mem w)
                       (count_steps [o] + steps w)) /\
    t r = stored_kind o.
Proof.
  intros Hpos Hrule. destruct o as [m | rule | c | ]; simpl.
  - rewrite MPH_rt_morph_eq. eexists. split; reflexivity.
  - rewrite (MPH_rt_rule_defined rule w Hpos (Hrule rule eq_refl)).
    eexists. split; reflexivity.
  - rewrite MPH_rt_cell_eq. eexists. split; reflexivity.
  - rewrite MPH_rt_step_eq. eexists. split; reflexivity.
Qed.

(** X5: every session of calls whose rule counts fit an int, started on a
    runtime with a size_t position, runs to its end; it reports one result
    per call, each of the kind its body stores (so none is OK or MEM_LOW),
    leaves the runtime struct, the memory and the arena as they were, and
    has entered MPH_rt_step once per step call: nothing is ever allocated
    and the position never moves. *)
Theorem run_calls_never_allocates (os : list operation) :
  forall w : machine,
    size_t_ok (pos (rt w)) ->
    (forall rule, In (Op_rule rule) os -> len rule <= INT_MAX) ->
    exists rs w',
      run_calls os w = Ok (rs, w') /\
      map t rs = map stored_kind os /\
      rt w' = rt w /\ mem w' = mem w /\ arena w' = arena w /\
      remaining w' = remaining w /\
      steps w' = (count_steps os + steps w)%nat.
Proof.
  induction os as [ | o os IH]; intros w Hpos Hrules.
  - exists [], w. repeat split; reflexivity.
  - destruct (call_defined o w Hpos) as [r [Hcall Hkind]].
    { intros rule ->. apply Hrules. left. reflexivity. }
    destruct (IH (mkMachine (rt w) r (mem w) (count_steps [o] + steps w)))
      as [rs [w' [Hrun [Hkinds [Hrt [Hmem [_ [_ Hsteps]]]]]]]].
    { exact Hpos. }
    { intros rule Hin. apply Hrules. right. exact Hin. }
    simpl in Hrt, Hmem, Hsteps.
    exists (r :: rs), w'.
    rewrite run_calls_cons, Hcall, Hrun.
    split; [ reflexivity | ].
    split; [ simpl; rewrite Hkind, Hkinds; reflexivity | ].
    split; [ exact Hrt | ].
    split; [ exact Hmem | ].
    split; [ apply arena_frame; assumption | ].
    split; [ unfold remaining; rewrite Hrt; reflexivity | ].
    rewrite Hsteps. destruct o; simpl; lia.
Qed.

Lemma run_calls_never_allocates_witness :
  size_t_ok (pos (rt test_ready)) /\
  (forall rule, In (Op_rule rule) test_session -> len rule <= INT_MAX) /\
  exists rs w',
    run_calls test_session test_ready = Ok (rs, w') /\
    map t rs = map stored_kind test_session /\
    rt w' = rt test_ready /\ mem w' = mem test_ready /\
    arena w' = arena test_ready /\
    remaining w' = remaining test_ready /\
    steps w' = (count_steps test_session + steps test_ready)%nat.
Proof.
  assert (Hrules : forall rule,
             In (Op_rule rule) test_session -> len rule <= INT_MAX).
  { intros rule Hin. simpl in Hin.
    destruct Hin as [H | [H | [H | [H | H]]]];
      try discriminate H; try contradiction.
    injection H as <-. discriminate. }
  split; [ unfold size_t_ok, SIZE_MAX; simpl; lia | ].
  split; [ exact Hrules | ].
  apply (run_calls_never_allocates test_session test_ready).
  - unfold size_t_ok, SIZE_MAX; simpl; lia.
  - exact Hrules.
Defined.

(** ** MPH_rt_exec against its documentation *)

(** X6: the loop the header documents for MPH_rt_exec (MPH_rt_step until
    HALT or MEM_LOW), given any positive number of iterations, ends after
    exactly one step with HALT; MPH_rt_exec, which calls no step, returns
    the same result and leaves the same runtime struct, result struct and
    memory. *)
Theorem MPH_rt_exec_agrees_with_step_loop (fuel : nat) (w : machine) :
  (0 < fuel)%nat ->
  exists r w1 w2,
    exec_by_steps fuel w = Ok (r, w1) /\
    MPH_rt_exec w = Ok (r, w2) /\
    t r = MPH_HALT /\
    rt w1 = rt w2 /\ ret w1 = ret w2 /\ mem w1 = mem w2 /\
    steps w1 = S (steps w) /\ steps w2 = steps w.
Proof.
  intros Hfuel. destruct fuel as [ | fuel]; [ lia | ].
  rewrite exec_by_steps_halts, MPH_rt_exec_eq.
  do 3 eexists. repeat split; reflexivity.
Qed.

Lemma MPH_rt_exec_agrees_with_step_loop_witness :
  (0 < 3)%nat /\
  exists r w1 w2,
    exec_by_steps 3 test_ready = Ok (r, w1) /\
    MPH_rt_exec test_ready = Ok (r, w2) /\
    t r = MPH_HALT /\
    rt w1 = rt w2 /\ ret w1 = ret w2 /\ mem w1 = mem w2 /\
    steps w1 = S (steps test_ready) /\ steps w2 = steps test_ready.
Proof.
  split; [ lia | ].
  apply (MPH_rt_exec_agrees_with_step_loop 3 test_ready). lia.
Defined.

(** * Properties of the test harness *)

Module HarnessFacts.

Import String Ascii Harness.
#[local] Open Scope bool_scope.

(** ** Pointers, counters and texts *)

Lemma strlen_nonneg (s : string) : 0 <= strlen s.
Proof. unfold strlen. lia. Qed.

Lemma strlen_cons (c : ascii) (s : string) :
  strlen (String c s) = 1 + strlen s.
Proof. unfold strlen. cbn [String.length]. lia. Qed.

Lemma strlen_append (s1 s2 : string) :
  strlen (String.append s1 s2) = strlen s1 + strlen s2.
Proof.
  induction s1 as [ | c s1 IH]; cbn [String.append].
  - unfold strlen at 2. simpl. lia.
  - rewrite !strlen_cons, IH. lia.
Qed.

Lemma substring_all (s : string) : substring 0 (String.length s) s = s.
Proof.
  induction s as [ | c s IH]; cbn [String.length substring].
  - reflexivity.
  - rewrite IH. reflexivity.
Qed.

Lemma ptrdiff_to_size_t_small (d : Z) :
  0 <= d <= PTRDIFF_MAX -> ptrdiff_to_size_t d = d.
Proof.
  unfold ptrdiff_to_size_t, PTRDIFF_MAX. intros Hd.
  apply Z.mod_small. lia.
Qed.

Lemma ptr_add_ok (p n : Z) (h : harness) :
  0 <= p + n <= log_size h -> ptr_add p n h = Ok (p + n, h).
Proof.
  intros [Hlo Hhi]. unfold ptr_add.
  destruct (Z.leb_spec 0 (p + n)); [ | lia ].
  destruct (Z.leb_spec (p + n) (log_size h)); [ | lia ].
  reflexivity.
Qed.

Lemma int_succ_ok (i : Z) (h : harness) :
  i < INT_MAX -> int_succ i h = Ok (i + 1, h).
Proof.
  intros Hi. unfold int_succ.
  destruct (Z.ltb_spec i INT_MAX); [ reflexivity | lia ].
Qed.

(** A text that fits with its terminator is stored whole. *)
Lemma snprintf_fits (dst n : Z) (text : string) (h : harness) :
  strlen text <= INT_MAX -> strlen text < n ->
  0 <= dst -> dst + strlen text < log_size h ->
  snprintf dst n text h =
  Ok (strlen text,
      mkHarness (tst h)
                (store_char (write_string (logmem h) dst text)
                            (dst + strlen text) NUL)
                (log_size h) (mach h) (err h)).
Proof.
  intros Hint Hn Hdst Hend. unfold snprintf.
  pose proof (strlen_nonneg text) as Hlen.
  destruct (Z.ltb_spec INT_MAX (strlen text)); [ lia | ].
  destruct (Z.eqb_spec n 0); [ lia | ].
  rewrite Z.min_l by lia.
  destruct (Z.leb_spec 0 dst); [ | lia ].
  destruct (Z.ltb_spec (dst + strlen text) (log_size h)); [ | lia ].
  cbn [andb].
  replace (Z.to_nat (strlen text)) with (String.length text)
    by (unfold strlen; lia).
  rewrite substring_all. reflexivity.
Qed.

(** ** test_log and test_finish *)

Lemma test_finish_ok (h : harness) :
  buf (tst h) + 1 <= log_size h -> 0 <= buf (tst h) ->
  cursor (tst h) < INT_MAX ->
  test_finish h = Ok (tt, finished h).
Proof.
  intros Hbuf Hlo Hcur. unfold test_finish, tbind, load_buf.
  rewrite ptr_add_ok by lia.
  unfold store_buf, store_test, load_cursor. cbn [tst cursor buf].
  rewrite int_succ_ok by exact Hcur.
  reflexivity.
Qed.

(** When the text leaves two bytes or more below [buf_max], it is stored
    whole with its terminator and the function goes on. *)
Lemma test_log_goes_on (text : string) (k : T test_rt) (h : harness) :
  log_ok h -> strlen text <= INT_MAX ->
  buf (tst h) + strlen text < buf_max (tst h) - 1 ->
  test_log text k h = k (logged text h).
Proof.
  intros [Hbuf [Hmax [Hsize Hcur]]] Hint Hroom.
  pose proof (strlen_nonneg text) as Hlen.
  unfold test_log, tbind, load_buf, load_buf_max.
  rewrite ptrdiff_to_size_t_small by lia.
  rewrite snprintf_fits by lia.
  rewrite ptr_add_ok by (cbn [log_size]; lia).
  unfold store_buf, store_test. cbn [tst buf buf_max cursors cursor logmem
                                      log_size mach err].
  rewrite ptr_add_ok by (cbn [log_size]; lia).
  destruct (Z.leb_spec (buf_max (tst h) + -1) (buf (tst h) + strlen text));
    [ lia | ].
  reflexivity.
Qed.

(** Otherwise the function does not go on: whatever it returns is
    TEST_OOM. *)
Lemma test_log_stops (text : string) (k : T test_rt) (h h' : harness)
    (r : test_rt) :
  buf_max (tst h) - 1 <= buf (tst h) + strlen text ->
  test_log text k h = Ok (r, h') -> r = TEST_OOM.
Proof.
  intros Hroom. unfold test_log, tbind, load_buf, load_buf_max.
  destruct (snprintf _ _ text h) as [[n h1] | | ] eqn:Hprint;
    try discriminate.
  assert (Hn : n = strlen text /\ tst h1 = tst h /\ log_size h1 = log_size h).
  { unfold snprintf in Hprint.
    destruct (INT_MAX <? strlen text); [ discriminate | ].
    destruct (_ =? 0).
    - injection Hprint as <- <-. repeat split; reflexivity.
    - destruct (_ && _); [ | discriminate ].
      injection Hprint as <- <-. repeat split; reflexivity. }
  destruct Hn as [-> [Htst Hsize]].
  destruct (ptr_add _ _ h1) as [[b' h2] | | ] eqn:Hadd; try discriminate.
  unfold ptr_add in Hadd.
  destruct (_ && _); [ | discriminate ].
  injection Hadd as <- <-.
  unfold store_buf, store_test. cbn [tst buf buf_max cursors cursor].
  destruct (ptr_add _ _ _) as [[lim h3] | | ] eqn:Hlim; try discriminate.
  unfold ptr_add in Hlim.
  destruct (_ && _); [ | discriminate ].
  injection Hlim as <- <-.
  destruct (Z.leb_spec (buf_max (tst h) + -1) (buf (tst h) + strlen text));
    [ | lia ].
  destruct (test_finish _) as [[u h4] | | ]; try discriminate.
  intros Hret. injection Hret as <- _. reflexivity.
Qed.

(** Whatever test_log returns is TEST_OOM or comes from the rest of the
    function. *)
Lemma test_log_returns (text : string) (k : T test_rt) (h h' : harness)
    (r : test_rt) :
  test_log text k h = Ok (r, h') ->
  r = TEST_OOM \/ exists h1, k h1 = Ok (r, h').
Proof.
  unfold test_log, tbind, load_buf, load_buf_max.
  destruct (snprintf _ _ text h) as [[n h1] | | ]; try discriminate.
  destruct (ptr_add _ _ h1) as [[b' h2] | | ]; try discriminate.
  destruct (store_buf b' h2) as [[u h3] | | ]; try discriminate.
  destruct (ptr_add _ _ h3) as [[lim h4] | | ]; try discriminate.
  destruct (lim <=? b').
  - destruct (test_finish h4) as [[u' h5] | | ]; try discriminate.
    intros Hret. injection Hret as <- _. left. reflexivity.
  - intros Hret. right. exists h4. exact Hret.
Qed.

(** A test_log that returns something else than TEST_OOM had room, and
    went on from the state with the text stored. *)
Lemma test_log_went_on (text : string) (k : T test_rt) (h h' : harness)
    (r : test_rt) :
  log_ok h -> strlen text <= INT_MAX ->
  test_log text k h = Ok (r, h') -> r <> TEST_OOM ->
  buf (tst h) + strlen text < buf_max (tst h) - 1 /\
  k (logged text h) = Ok (r, h').
Proof.
  intros Hok Hint Hret Hr.
  destruct (Z_lt_le_dec (buf (tst h) + strlen text) (buf_max (tst h) - 1))
    as [Hroom | Hfull].
  - split; [ exact Hroom | ].
    rewrite <- (test_log_goes_on text k h Hok Hint Hroom). exact Hret.
  - exfalso. apply Hr. exact (test_log_stops text k h h' r Hfull Hret).
Qed.

(** ** test_init *)

Lemma msg_init_len : strlen msg_init = 20.
Proof. reflexivity. Qed.

Lemma msg_rule_len : strlen msg_rule = 37.
Proof. reflexivity. Qed.

Lemma log_ok_opened (h : harness) : log_ok h -> log_ok (opened h).
Proof. intros Hok. exact Hok. Qed.

Lemma test_init_eq (k : T test_rt) (h : harness) :
  0 <= cursor (tst h) < TEST_MAX ->
  test_init k h = test_log msg_init k (opened h).
Proof.
  intros [Hlo Hhi]. unfold test_init, tbind, load_cursor, load_buf.
  unfold store_cursors_at.
  destruct (Z.leb_spec 0 (cursor (tst h))); [ | lia ].
  destruct (Z.ltb_spec (cursor (tst h)) TEST_MAX); [ | lia ].
  reflexivity.
Qed.

(** A test_init that returns has found a slot of [cursors]. *)
Lemma test_init_slot (k : T test_rt) (h h' : harness) (r : test_rt) :
  test_init k h = Ok (r, h') -> 0 <= cursor (tst h) < TEST_MAX.
Proof.
  unfold test_init, tbind, load_cursor, load_buf, store_cursors_at.
  destruct (Z.leb_spec 0 (cursor (tst h)));
    destruct (Z.ltb_spec (cursor (tst h)) TEST_MAX);
    cbn [andb]; try discriminate.
  intros _. lia.
Qed.

Lemma test_init_goes_on (k : T test_rt) (h : harness) :
  log_ok h -> cursor (tst h) < TEST_MAX ->
  buf (tst h) + 20 < buf_max (tst h) - 1 ->
  test_init k h = k (logged msg_init (opened h)).
Proof.
  intros Hok Hcur Hroom.
  rewrite test_init_eq by (destruct Hok as [_ [_ [_ Hc]]]; lia).
  apply test_log_goes_on.
  - apply log_ok_opened. exact Hok.
  - rewrite msg_init_len. discriminate.
  - rewrite msg_init_len. exact Hroom.
Qed.

Lemma test_init_returns (k : T test_rt) (h h' : harness) (r : test_rt) :
  test_init k h = Ok (r, h') ->
  r = TEST_OOM \/ exists h1, k h1 = Ok (r, h').
Proof.
  intros Hret. pose proof (test_init_slot k h h' r Hret) as Hslot.
  rewrite test_init_eq in Hret by exact Hslot.
  exact (test_log_returns msg_init k (opened h) h' r Hret).
Qed.

Lemma test_init_went_on (k : T test_rt) (h h' : harness) (r : test_rt) :
  log_ok h -> test_init k h = Ok (r, h') -> r <> TEST_OOM ->
  cursor (tst h) < TEST_MAX /\
  buf (tst h) + 20 < buf_max (tst h) - 1 /\
  k (logged msg_init (opened h)) = Ok (r, h').
Proof.
  intros Hok Hret Hr. pose proof (test_init_slot k h h' r Hret) as Hslot.
  rewrite test_init_eq in Hret by exact Hslot.
  destruct (test_log_went_on msg_init k (opened h) h' r) as [Hroom Hk].
  - apply log_ok_opened. exact Hok.
  - rewrite msg_init_len. discriminate.
  - exact Hret.
  - exact Hr.
  - rewrite msg_init_len in Hroom. cbn [opened tst buf buf_max] in Hroom.
    split; [ lia | ]. split; assumption.
Qed.

(** ** The bodies of the tests *)

(** The three checks of test_rt_init hold on every store and size. *)
Lemma test_rt_init_body (raw_ : ptr) (raw_size_ : Z) (h : harness) :
  (lift (MPH_rt_init raw_ raw_size_) ;;
   p <- lift load_pos ;;
   test_check TEST_OK (p =? 0) "Position initialized to 0" (fun rv =>
   r <- lift load_raw ;;
   test_check rv (r =? raw_) "Memory initialized to raw" (fun rv =>
   n <- lift load_raw_size ;;
   test_check rv (n =? raw_size_) "Size initialized to raw_size" (fun rv =>
   test_finish ;;
   tret rv))))%test h =
  (test_finish ;; tret TEST_OK)%test
    (with_mach (after_init raw_ raw_size_ (mach h)) h).
Proof.
  unfold tbind at 1 2. unfold lift at 1 2. rewrite MPH_rt_init_eq.
  cbn [mach load_pos rt pos]. cbn [Z.eqb test_check negb].
  unfold tbind at 1. unfold lift at 1. cbn [mach load_raw rt raw].
  rewrite Z.eqb_refl. cbn [test_check negb].
  unfold tbind at 1. unfold lift at 1. cbn [mach load_raw_size rt raw_size].
  rewrite Z.eqb_refl. cbn [test_check negb].
  reflexivity.
Qed.

(** The check of test_rt_rule fails on every runtime. *)
Lemma test_rt_rule_body (h h' : harness) (r : test_rt) :
  (res <- lift (MPH_rt_rule test_rule_add) ;;
   test_check TEST_OK (kind_is_OK (t res)) "MPH_rt_rule succeeds" (fun rv =>
   test_finish ;;
   tret rv))%test h = Ok (r, h') ->
  exists res w,
    MPH_rt_rule test_rule_add (mach h) = Ok (res, w) /\
    test_log msg_rule (test_finish ;; tret TEST_FAILED)%test (with_mach w h)
    = Ok (r, h').
Proof.
  unfold tbind at 1. unfold lift.
  destruct (MPH_rt_rule test_rule_add (mach h)) as [[res w] | | ] eqn:Hrule;
    try discriminate.
  rewrite (MPH_rt_rule_never_OK _ _ _ _ Hrule).
  cbn [kind_is_OK test_check negb]. intros Hret.
  exists res, w. split; [ reflexivity | exact Hret ].
Qed.

Lemma finish_returns (v r : test_rt) (h h' : harness) :
  (test_finish ;; tret v)%test h = Ok (r, h') -> r = v.
Proof.
  unfold tbind.
  destruct (test_finish h) as [[u h1] | | ]; try discriminate.
  unfold tret. intros Hret. injection Hret as <- _. reflexivity.
Qed.

(** ** Texts in the block *)

Lemma write_string_outside (s : string) :
  forall (m : Z -> ascii) (p q : Z),
    q < p \/ p + strlen s <= q -> write_string m p s q = m q.
Proof.
  induction s as [ | c s IH]; intros m p q Hq; cbn [write_string].
  - reflexivity.
  - rewrite strlen_cons in Hq. pose proof (strlen_nonneg s).
    rewrite IH by lia. unfold store_char.
    destruct (Z.eqb_spec q p); [ lia | reflexivity ].
Qed.

Lemma write_string_prefix (s : string) :
  forall (m : Z -> ascii) (p : Z), prefix_at (write_string m p s) p s.
Proof.
  induction s as [ | c s IH]; intros m p; cbn [write_string prefix_at].
  - exact I.
  - split; [ | apply IH ].
    rewrite write_string_outside by lia.
    unfold store_char. rewrite Z.eqb_refl. reflexivity.
Qed.

Lemma prefix_at_ext (s : string) :
  forall (m m' : Z -> ascii) (p : Z),
    (forall q, p <= q < p + strlen s -> m' q = m q) ->
    prefix_at m p s -> prefix_at m' p s.
Proof.
  induction s as [ | c s IH]; intros m m' p Hsame; cbn [prefix_at].
  - intros _. exact I.
  - rewrite strlen_cons in Hsame. pose proof (strlen_nonneg s).
    intros [Hc Hrest]. split.
    + rewrite Hsame by lia. exact Hc.
    + apply (IH m); [ | exact Hrest ].
      intros q Hq. apply Hsame. lia.
Qed.

Lemma prefix_at_app (s1 : string) :
  forall (s2 : string) (m : Z -> ascii) (p : Z),
    prefix_at m p s1 -> prefix_at m (p + strlen s1) s2 ->
    prefix_at m p (String.append s1 s2).
Proof.
  induction s1 as [ | c s1 IH]; intros s2 m p; cbn [prefix_at String.append].
  - intros _ H2. replace (p + strlen EmptyString) with p in H2
      by (unfold strlen; simpl; lia).
    exact H2.
  - intros [Hc H1] H2. split; [ exact Hc | ].
    apply IH; [ exact H1 | ].
    rewrite strlen_cons in H2.
    replace (p + 1 + strlen s1) with (p + (1 + strlen s1)) by lia.
    exact H2.
Qed.

Lemma no_NUL_app (s1 s2 : string) :
  no_NUL s1 = true -> no_NUL s2 = true ->
  no_NUL (String.append s1 s2) = true.
Proof.
  induction s1 as [ | c s1 IH]; cbn [no_NUL String.append].
  - intros _ H2. exact H2.
  - intros H1 H2. apply andb_prop in H1. destruct H1 as [Hc H1].
    rewrite Hc, (IH H1 H2). reflexivity.
Qed.

Lemma text_at_ext (s : string) (m m' : Z -> ascii) (p : Z) :
  (forall q, p <= q <= p + strlen s -> m' q = m q) ->
  text_at m p s -> text_at m' p s.
Proof.
  intros Hsame [Hpre [Hnul Hend]]. pose proof (strlen_nonneg s).
  split; [ | split ].
  - apply (prefix_at_ext s m); [ | exact Hpre ].
    intros q Hq. apply Hsame. lia.
  - exact Hnul.
  - rewrite Hsame by lia. exact Hend.
Qed.

(** Reading a C string gives back the text that was stored. *)
Lemma cstring_at_text (s : string) :
  forall (m : Z -> ascii) (p : Z) (fuel : nat),
    text_at m p s -> (String.length s < fuel)%nat ->
    cstring_at fuel m p = Some s.
Proof.
  induction s as [ | c s IH]; intros m p fuel [Hpre [Hnul Hend]] Hfuel.
  - destruct fuel as [ | fuel]; [ lia | ]. cbn [cstring_at].
    replace (p + strlen EmptyString) with p in Hend
      by (unfold strlen; simpl; lia).
    rewrite Hend, Ascii.eqb_refl. reflexivity.
  - destruct fuel as [ | fuel]; [ cbn [String.length] in Hfuel; lia | ].
    cbn [cstring_at]. cbn [prefix_at] in Hpre. destruct Hpre as [Hc Hpre].
    cbn [no_NUL] in Hnul. apply andb_prop in Hnul. destruct Hnul as [Hc0 Hnul].
    rewrite Hc. apply Bool.negb_true_iff in Hc0. rewrite Hc0.
    rewrite (IH m (p + 1) fuel).
    + reflexivity.
    + split; [ exact Hpre | split; [ exact Hnul | ] ].
      rewrite strlen_cons in Hend.
      replace (p + 1 + strlen s) with (p + (1 + strlen s)) by lia.
      exact Hend.
    + cbn [String.length] in Hfuel. lia.
Qed.

(** Logging adds the text to what the slot holds so far. *)
Lemma logged_appends (h : harness) (p : Z) (s0 text : string) :
  prefix_at (logmem h) p s0 -> no_NUL s0 = true -> no_NUL text = true ->
  p + strlen s0 = buf (tst h) ->
  text_at (logmem (logged text h)) p (String.append s0 text).
Proof.
  intros Hpre Hnul0 Hnul Hp. pose proof (strlen_nonneg s0).
  pose proof (strlen_nonneg text). cbn [logged logmem].
  split; [ | split ].
  - apply prefix_at_app.
    + apply (prefix_at_ext s0 (logmem h)); [ | exact Hpre ].
      intros q Hq. unfold store_char.
      destruct (Z.eqb_spec q (buf (tst h) + strlen text)); [ lia | ].
      apply write_string_outside. lia.
    + rewrite Hp.
      apply (prefix_at_ext text
               (write_string (logmem h) (buf (tst h)) text));
        [ | apply write_string_prefix ].
      intros q Hq. unfold store_char.
      destruct (Z.eqb_spec q (buf (tst h) + strlen text)); [ lia | ].
      reflexivity.
  - apply no_NUL_app; assumption.
  - rewrite strlen_append. unfold store_char.
    replace (p + (strlen s0 + strlen text))
      with (buf (tst h) + strlen text) by lia.
    rewrite Z.eqb_refl. reflexivity.
Qed.

(** Logging writes at [buf] and above only. *)
Lemma logged_below (h : harness) (text : string) (q : Z) :
  q < buf (tst h) -> logmem (logged text h) q = logmem h q.
Proof.
  intros Hq. pose proof (strlen_nonneg text). cbn [logged logmem].
  unfold store_char.
  destruct (Z.eqb_spec q (buf (tst h) + strlen text)); [ lia | ].
  apply write_string_outside. lia.
Qed.

(** ** The state a test leaves *)

Ltac harness_simpl :=
  cbn [finished with_mach logged opened printed
       tst buf buf_max cursor cursors log_size err logmem mach] in *.

Lemma no_NUL_msg_init : no_NUL msg_init = true.
Proof. reflexivity. Qed.

Lemma no_NUL_msg_rule : no_NUL msg_rule = true.
Proof. reflexivity. Qed.

Lemma slot_kept (h h' : harness) (i : Z) (s : string) :
  cursors (tst h') i = cursors (tst h) i ->
  buf (tst h) <= buf (tst h') ->
  (forall q, q < buf (tst h) -> logmem h' q = logmem h q) ->
  slot_holds h i s -> slot_holds h' i s.
Proof.
  intros Hcur Hbuf Hmem [Hlo [Hend Htext]]. unfold slot_holds.
  rewrite Hcur. split; [ exact Hlo | ]. split; [ lia | ].
  apply (text_at_ext s (logmem h)); [ | exact Htext ].
  intros q Hq. apply Hmem. lia.
Qed.

(** A test with the one text of test_init. *)
Lemma took_slot_one_text (w : machine) (h : harness) :
  log_ok h -> cursor (tst h) < TEST_MAX ->
  buf (tst h) + strlen msg_init + 1 < buf_max (tst h) ->
  took_slot msg_init h
    (finished (with_mach w (logged msg_init (opened h)))).
Proof.
  intros [Hbuf [Hmax [Hsize Hcur]]] Hfree Hroom.
  rewrite msg_init_len in Hroom.
  unfold took_slot, log_ok.
  cbn [finished with_mach logged opened tst buf buf_max
         cursor cursors log_size err logmem].
  rewrite msg_init_len.
  split; [ unfold TEST_MAX in *; lia | ].
  split; [ reflexivity | ]. split; [ reflexivity | ].
  split; [ reflexivity | ]. split; [ reflexivity | ].
  split; [ reflexivity | ].
  split.
  - unfold slot_holds. harness_simpl.
    rewrite Z.eqb_refl.
    split; [ lia | ]. split; [ lia | ].
    apply (logged_appends (opened h) (buf (tst h)) EmptyString msg_init).
    + exact I.
    + reflexivity.
    + exact no_NUL_msg_init.
    + unfold strlen. simpl. lia.
  - intros i s Hi Hslot.
    apply (slot_kept h); [ | | | exact Hslot ].
    + harness_simpl.
      destruct (Z.eqb_spec i (cursor (tst h))); [ | reflexivity ].
      contradiction.
    + harness_simpl. rewrite ?msg_init_len. lia.
    + intros q Hq. apply (logged_below (opened h) msg_init q). exact Hq.
Qed.

(** The test with the two texts of test_rt_rule. *)
Lemma took_slot_two_texts (w : machine) (h : harness) :
  log_ok h -> cursor (tst h) < TEST_MAX ->
  buf (tst h) + strlen (String.append msg_init msg_rule) + 1
    < buf_max (tst h) ->
  took_slot (String.append msg_init msg_rule) h
    (finished (logged msg_rule (with_mach w (logged msg_init (opened h))))).
Proof.
  intros [Hbuf [Hmax [Hsize Hcur]]] Hfree Hroom.
  rewrite strlen_append, msg_init_len, msg_rule_len in Hroom.
  unfold took_slot, log_ok.
  cbn [finished with_mach logged opened tst buf buf_max cursor cursors
         log_size err].
  rewrite strlen_append, msg_init_len, msg_rule_len.
  split; [ unfold TEST_MAX in *; lia | ].
  split; [ reflexivity | ]. split; [ lia | ].
  split; [ reflexivity | ]. split; [ reflexivity | ].
  split; [ reflexivity | ].
  split.
  - unfold slot_holds. harness_simpl.
    rewrite Z.eqb_refl. rewrite ?strlen_append, ?msg_init_len, ?msg_rule_len.
    split; [ lia | ]. split; [ lia | ].
    apply (logged_appends (with_mach w (logged msg_init (opened h)))
             (buf (tst h)) msg_init msg_rule).
    + cbn [with_mach logmem].
      apply (logged_appends (opened h) (buf (tst h)) EmptyString msg_init).
      * exact I.
      * reflexivity.
      * exact no_NUL_msg_init.
      * unfold strlen. simpl. lia.
    + exact no_NUL_msg_init.
    + exact no_NUL_msg_rule.
    + reflexivity.
  - intros i s Hi Hslot.
    apply (slot_kept h); [ | | | exact Hslot ].
    + harness_simpl.
      destruct (Z.eqb_spec i (cursor (tst h))); [ | reflexivity ].
      contradiction.
    + harness_simpl.
      rewrite ?msg_init_len, ?msg_rule_len. lia.
    + intros q Hq. cbn [finished logmem].
      rewrite (logged_below (with_mach w (logged msg_init (opened h)))
                 msg_rule q)
        by (cbn [with_mach logged opened tst buf]; rewrite msg_init_len; lia).
      cbn [with_mach logmem].
      apply (logged_below (opened h) msg_init q). exact Hq.
Qed.

Lemma took_slot_after_test (f : test_fn) (h : harness) :
  log_ok h -> cursor (tst h) < TEST_MAX ->
  buf (tst h) + strlen (log_text f) + 1 < buf_max (tst h) ->
  took_slot (log_text f) h (after_test f h) /\
  mach (after_test f h) = mach_after f (mach h).
Proof.
  intros Hok Hfree Hroom.
  destruct f; cbn [after_test log_text mach_after] in *;
    (split; [ | reflexivity ]);
    first [ apply took_slot_one_text; assumption
          | apply took_slot_two_texts; assumption ].
Qed.

(** test_rt_init needs nothing of the runtime it is handed. *)
Lemma test_rt_init_runs (raw_ : ptr) (raw_size_ : Z) (h : harness) :
  log_ok h -> cursor (tst h) < TEST_MAX ->
  buf (tst h) + 20 + 1 < buf_max (tst h) ->
  test_rt_init raw_ raw_size_ h =
  Ok (TEST_OK, after_test (Test_init raw_ raw_size_) h).
Proof.
  intros Hok Hfree Hroom.
  pose proof Hok as [Hbuf [Hmax [Hsize Hcur]]].
  unfold test_rt_init. rewrite test_init_goes_on by (assumption || lia).
  rewrite test_rt_init_body. unfold tbind. rewrite test_finish_ok.
  - reflexivity.
  - harness_simpl. rewrite msg_init_len. lia.
  - harness_simpl. rewrite msg_init_len. lia.
  - harness_simpl. unfold TEST_MAX in Hfree. rewrite INT_MAX_eq. lia.
Qed.

(** With room for its text and the terminator, a test runs to its end. *)
Lemma run_test_runs (f : test_fn) (h : harness) :
  log_ok h -> cursor (tst h) < TEST_MAX ->
  size_t_ok (pos (rt (mach h))) ->
  buf (tst h) + strlen (log_text f) + 1 < buf_max (tst h) ->
  run_test f h = Ok (verdict f, after_test f h).
Proof.
  intros Hok Hfree Hpos Hroom.
  pose proof Hok as [Hbuf [Hmax [Hsize Hcur]]].
  assert (Hlen : 20 <= strlen (log_text f)).
  { destruct f; cbn [log_text];
      rewrite ?strlen_append, ?msg_init_len, ?msg_rule_len; lia. }
  assert (Hstub : forall (v : test_rt) (w : machine),
             (test_finish ;; tret v)%test
               (with_mach w (logged msg_init (opened h))) =
             Ok (v, finished (with_mach w (logged msg_init (opened h))))).
  { intros v w. unfold tbind. rewrite test_finish_ok.
    - reflexivity.
    - cbn [with_mach logged opened tst buf log_size].
      rewrite ?msg_init_len. lia.
    - cbn [with_mach logged opened tst buf]. rewrite ?msg_init_len. lia.
    - cbn [with_mach logged opened tst cursor]. unfold TEST_MAX in Hfree.
      rewrite INT_MAX_eq. lia. }
  destruct f as [raw_ raw_size_ | | | m_offs | | r_offs];
    cbn [run_test verdict after_test mach_after].
  - unfold test_rt_init. rewrite test_init_goes_on by (assumption || lia).
    rewrite test_rt_init_body. apply Hstub.
  - unfold test_rt_cell. rewrite test_init_goes_on by (assumption || lia).
    apply (Hstub TEST_UNIMPLEMENTED (mach h)).
  - unfold test_rt_morph. rewrite test_init_goes_on by (assumption || lia).
    apply (Hstub TEST_UNIMPLEMENTED (mach h)).
  - unfold test_rt_step_morph.
    rewrite test_init_goes_on by (assumption || lia).
    apply (Hstub TEST_UNIMPLEMENTED (mach h)).
  - cbn [log_text] in Hroom.
    rewrite strlen_append, msg_init_len, msg_rule_len in Hroom.
    unfold test_rt_rule. rewrite test_init_goes_on by (assumption || lia).
    unfold tbind at 1. unfold lift.
    cbn [mach logged opened].
    rewrite (MPH_rt_rule_defined test_rule_add (mach h) Hpos)
      by discriminate.
    cbn [t kind_is_OK test_check negb]. fold msg_rule.
    change (mkHarness (tst (logged msg_init (opened h)))
                      (logmem (logged msg_init (opened h)))
                      (log_size (logged msg_init (opened h)))
                      (rule_exit (mach h))
                      (err (logged msg_init (opened h))))
      with (with_mach (rule_exit (mach h)) (logged msg_init (opened h))).
    rewrite test_log_goes_on.
    + unfold tbind. rewrite test_finish_ok.
      * reflexivity.
      * cbn [with_mach logged opened tst buf log_size].
        rewrite ?msg_init_len, ?msg_rule_len. lia.
      * cbn [with_mach logged opened tst buf].
        rewrite ?msg_init_len, ?msg_rule_len. lia.
      * cbn [with_mach logged opened tst cursor]. unfold TEST_MAX in Hfree.
        rewrite INT_MAX_eq. lia.
    + unfold log_ok. cbn [with_mach logged opened tst buf buf_max cursor
                            log_size].
      rewrite ?msg_init_len. lia.
    + rewrite msg_rule_len. discriminate.
    + cbn [with_mach logged opened tst buf buf_max].
      rewrite ?msg_init_len, ?msg_rule_len. lia.
  - unfold test_rt_step_rule.
    rewrite test_init_goes_on by (assumption || lia).
    apply (Hstub TEST_UNIMPLEMENTED (mach h)).
Qed.

(** A test that returns something else than TEST_OOM had room for all
    of its text. *)
Lemma run_test_had_room (f : test_fn) (h h' : harness) (r : test_rt) :
  log_ok h -> size_t_ok (pos (rt (mach h))) ->
  run_test f h = Ok (r, h') -> r <> TEST_OOM ->
  cursor (tst h) < TEST_MAX /\
  buf (tst h) + strlen (log_text f) + 1 < buf_max (tst h).
Proof.
  intros Hok Hpos Hrun Hr.
  destruct f as [raw_ raw_size_ | | | m_offs | | r_offs];
    cbn [run_test log_text] in *;
    apply (test_init_went_on _ h h' r Hok) in Hrun; try exact Hr;
    destruct Hrun as [Hfree [Hroom Hbody]];
    rewrite ?strlen_append, ?msg_init_len, ?msg_rule_len;
    (split; [ exact Hfree | ]); try lia.
  apply test_rt_rule_body in Hbody.
  destruct Hbody as [res [w [Hrule Hlog]]].
  apply test_log_went_on in Hlog.
  - destruct Hlog as [Hroom2 _]. harness_simpl.
    rewrite msg_init_len, msg_rule_len in Hroom2. lia.
  - destruct Hok as [Hbuf [Hmax [Hsize Hcur]]]. unfold log_ok.
    harness_simpl. rewrite msg_init_len. unfold TEST_MAX in *. lia.
  - rewrite msg_rule_len. discriminate.
  - exact Hr.
Qed.

(** ** The tests *)

(** X8: every test whose log has room for its text and the terminator,
    and a free slot, runs to its end and returns its fixed verdict:
    test_rt_init TEST_OK for every store and size, test_rt_rule TEST_FAILED
    on every runtime, the four others TEST_UNIMPLEMENTED.  It takes
    exactly one slot of [cursors], which then points to the terminated
    text it logged, and it leaves the slots and texts of earlier tests and
    stderr as they were. *)
Theorem run_test_verdict (f : test_fn) (h : harness) :
  log_ok h -> cursor (tst h) < TEST_MAX ->
  size_t_ok (pos (rt (mach h))) ->
  buf (tst h) + strlen (log_text f) + 1 < buf_max (tst h) ->
  exists h',
    run_test f h = Ok (verdict f, h') /\
    took_slot (log_text f) h h' /\
    mach h' = mach_after f (mach h).
Proof.
  intros Hok Hfree Hpos Hroom. exists (after_test f h).
  split; [ apply run_test_runs; assumption | ].
  apply took_slot_after_test; assumption.
Qed.

(** X9: whatever state a test is started in, if it returns, it returns its
    fixed verdict or TEST_OOM: test_rt_rule never returns TEST_OK, and
    test_rt_init never returns TEST_FAILED. *)
Theorem run_test_verdict_or_oom (f : test_fn) (h h' : harness) (r : test_rt) :
  run_test f h = Ok (r, h') -> r = verdict f \/ r = TEST_OOM.
Proof.
  intros Hrun.
  assert (Hinit : r = TEST_OOM \/
                  exists h1,
                    match f with
                    | Test_init raw_ raw_size_ =>
                        (test_finish ;; tret TEST_OK)%test
                          (with_mach (after_init raw_ raw_size_ (mach h1)) h1)
                    | Test_rule =>
                        (res <- lift (MPH_rt_rule test_rule_add) ;;
                         test_check TEST_OK (kind_is_OK (t res))
                           "MPH_rt_rule succeeds" (fun rv =>
                           test_finish ;;
                           tret rv))%test h1
                    | _ => (test_finish ;; tret TEST_UNIMPLEMENTED)%test h1
                    end = Ok (r, h')).
  { destruct f as [raw_ raw_size_ | | | m_offs | | r_offs];
      cbn [run_test] in Hrun; apply test_init_returns in Hrun;
      (destruct Hrun as [Hoom | [h1 Hbody]]; [ left; exact Hoom | right ]);
      exists h1; try exact Hbody.
    rewrite test_rt_init_body in Hbody. exact Hbody. }
  destruct Hinit as [Hoom | [h1 Hbody]]; [ right; exact Hoom | ].
  destruct f as [raw_ raw_size_ | | | m_offs | | r_offs]; cbn [verdict];
    try (left; exact (finish_returns _ r _ h' Hbody)).
  apply test_rt_rule_body in Hbody.
  destruct Hbody as [res [w [_ Hlog]]].
  apply test_log_returns in Hlog.
  destruct Hlog as [Hoom | [h2 Hfin]]; [ right; exact Hoom | left ].
  exact (finish_returns _ r h2 h' Hfin).
Qed.

(** X10: the guard of test_log is sound.  A test that returns anything
    but TEST_OOM had room for all of its text and the terminator; the
    value is its fixed verdict, and its slot of [cursors] points to the
    whole text, terminated, with earlier slots untouched. *)
Theorem run_test_not_oom_logged_all
    (f : test_fn) (h h' : harness) (r : test_rt) :
  log_ok h -> size_t_ok (pos (rt (mach h))) ->
  run_test f h = Ok (r, h') -> r <> TEST_OOM ->
  r = verdict f /\
  buf (tst h) + strlen (log_text f) + 1 < buf_max (tst h) /\
  took_slot (log_text f) h h' /\
  mach h' = mach_after f (mach h).
Proof.
  intros Hok Hpos Hrun Hr.
  destruct (run_test_had_room f h h' r Hok Hpos Hrun Hr) as [Hfree Hroom].
  rewrite (run_test_runs f h Hok Hfree Hpos Hroom) in Hrun.
  injection Hrun as <- <-.
  split; [ reflexivity | ]. split; [ exact Hroom | ].
  apply took_slot_after_test; assumption.
Qed.

(** ** flush_test_logs *)

Lemma flush_prints (assert_text : string) (h : harness) (i : Z)
    (s : string) :
  log_ok h -> 0 <= i < cursor (tst h) -> slot_holds h i s ->
  flush_test_logs assert_text i h =
  Ok (true, printed (String.append s nl) h).
Proof.
  intros [Hbuf [Hmax [Hsize Hcur]]] Hi [Hlo [Hend [Hpre [Hnul Hterm]]]].
  unfold flush_test_logs, tbind, load_cursor.
  pose proof (strlen_nonneg s) as Hlen.
  destruct (Z.ltb_spec i (cursor (tst h))); [ | lia ].
  unfold load_cursors_at.
  destruct (Z.leb_spec 0 i); [ | lia ].
  destruct (Z.ltb_spec i TEST_MAX); [ | lia ].
  cbn [andb]. unfold read_cstring.
  destruct (Z.leb_spec 0 (cursors (tst h) i)); [ | lia ].
  destruct (Z.ltb_spec (cursors (tst h) i) (log_size h)); [ | lia ].
  cbn [andb].
  rewrite (cstring_at_text s (logmem h) (cursors (tst h) i)).
  - reflexivity.
  - split; [ exact Hpre | split; assumption ].
  - unfold strlen in *. lia.
Qed.


(** X12: the log of a test can be read back.  After a test that had room,
    flush_test_logs on its slot writes to stderr the text the test logged
    and a newline, and on the slot of any earlier test the text that slot
    held before the test ran. *)
Theorem run_test_then_flush
    (assert_text : string) (f : test_fn) (h : harness) :
  log_ok h -> cursor (tst h) < TEST_MAX ->
  size_t_ok (pos (rt (mach h))) ->
  buf (tst h) + strlen (log_text f) + 1 < buf_max (tst h) ->
  exists h',
    run_test f h = Ok (verdict f, h') /\
    flush_test_logs assert_text (cursor (tst h)) h' =
      Ok (true, printed (String.append (log_text f) nl) h') /\
    forall (i : Z) (s : string),
      0 <= i < cursor (tst h) -> slot_holds h i s ->
      flush_test_logs assert_text i h' =
      Ok (true, printed (String.append s nl) h').
Proof.
  intros Hok Hfree Hpos Hroom. exists (after_test f h).
  split; [ apply run_test_runs; assumption | ].
  destruct (took_slot_after_test f h Hok Hfree Hroom)
    as [[Hok' [Hcur [_ [_ [_ [_ [Hslot Hkept]]]]]]] _].
  destruct Hok as [_ [_ [_ Hc]]].
  split.
  - apply flush_prints; [ exact Hok' | lia | exact Hslot ].
  - intros i s Hi Hs.
    apply flush_prints; [ exact Hok' | lia | ].
    apply Hkept; [ lia | exact Hs ].
Qed.

(** ** The report loop of main *)

Lemma slot_holds_printed (text : string) (h : harness) (i : Z) (s : string) :
  slot_holds h i s -> slot_holds (printed text h) i s.
Proof. intros Hslot. exact Hslot. Qed.

Lemma status_done (total_failed : Z) :
  status total_failed [] = (if total_failed =? 0 then 1 else 0).
Proof.
  unfold status. cbn [existsb negb]. rewrite Bool.andb_true_r. reflexivity.
Qed.

Lemma status_fatal (total_failed : Z) (e : test_entry)
    (todo : list test_entry) :
  fatal e = true -> status total_failed (e :: todo) = 1.
Proof.
  intros Hfatal. unfold status. cbn [existsb]. rewrite Hfatal. reflexivity.
Qed.

Lemma status_next (total_failed : Z) (e : test_entry)
    (todo : list test_entry) :
  0 <= total_failed -> fatal e = false ->
  status total_failed (e :: todo) =
  status (if failed e then total_failed + 1 else total_failed) todo.
Proof.
  intros Hnonneg Hfatal. unfold status. cbn [existsb]. rewrite Hfatal.
  cbn [orb]. destruct (existsb fatal todo); [ reflexivity | ].
  destruct (failed e); cbn [orb negb].
  - rewrite Bool.andb_false_r.
    destruct (Z.eqb_spec (total_failed + 1) 0); [ lia | reflexivity ].
  - reflexivity.
Qed.

Lemma tbind_ok {A B : Type} (m : T A) (k : A -> T B) (h h' : harness)
    (a : A) :
  m h = Ok (a, h') -> tbind m k h = k a h'.
Proof. intros Hm. unfold tbind. rewrite Hm. reflexivity. Qed.

Lemma tbind_tbind_ok {A B C : Type} (m : T A) (k1 : A -> T B)
    (k2 : B -> T C) (h h1 : harness) (a : A) :
  m h = Ok (a, h1) -> tbind (tbind m k1) k2 h = tbind (k1 a) k2 h1.
Proof. intros Hm. unfold tbind. rewrite Hm. reflexivity. Qed.

Lemma fprintf_stderr_ok (text : string) (h : harness) :
  fprintf_stderr text h = Ok (tt, printed text h).
Proof. reflexivity. Qed.

Lemma tret_ok {A : Type} (a : A) (h : harness) : tret a h = Ok (a, h).
Proof. reflexivity. Qed.

(** One pass through the body of the loop for an element that is not
    marked done, whose test has a text in its slot. *)
Lemma main_loop_pass (assert_text : string) (e : test_entry)
    (tests : list test_entry)
    (i total_failed total_passed total : Z) (h : harness)
    (d s : string) :
  done e = false -> description e = Some d ->
  log_ok h -> 0 <= i < cursor (tst h) -> slot_holds h i s ->
  total_failed < INT_MAX -> total_passed < INT_MAX -> total < INT_MAX ->
  main_loop assert_text (e :: tests) i total_failed total_passed total h =
  if fatal e then
    Ok (Returned 1,
        printed (String.append s nl) (printed (msg_test (i + 1) (result e) d) h))
  else
    main_loop assert_text tests (i + 1)
      (if failed e then total_failed + 1 else total_failed)
      (match result e with
       | TEST_OK => total_passed + 1
       | _ => total_passed
       end)
      (total + 1)
      (printed (String.append s nl) (printed (msg_test (i + 1) (result e) d) h)).
Proof.
  intros Hdone Hdesc Hok Hi Hslot Hf Hp Ht.
  assert (Himax : i < INT_MAX).
  { destruct Hok as [_ [_ [_ Hc]]]. unfold TEST_MAX in Hc.
    rewrite INT_MAX_eq. lia. }
  assert (Hflush : forall text,
             flush_test_logs assert_text i (printed text h) =
             Ok (true, printed (String.append s nl) (printed text h))).
  { intros text. apply flush_prints; [ exact Hok | exact Hi | exact Hslot ]. }
  cbn [main_loop]. rewrite Hdone.
  rewrite (tbind_ok _ _ _ _ _ (int_succ_ok total h Ht)).
  unfold fatal, failed, load_description. rewrite Hdesc.
  destruct (result e);
    repeat first
      [ rewrite (tbind_ok _ _ _ _ _ (int_succ_ok total_passed _ Hp))
      | rewrite (tbind_ok _ _ _ _ _ (int_succ_ok total_failed _ Hf))
      | rewrite (tbind_ok _ _ _ _ _ (int_succ_ok i _ Himax))
      | rewrite (tbind_ok _ _ _ _ _ (tret_ok _ _))
      | rewrite (tbind_ok _ _ _ _ _ (fprintf_stderr_ok _ _))
      | rewrite (tbind_ok _ _ _ _ _ (Hflush _)) ];
    reflexivity.
Qed.

(** X13: the report loop of main, over an array that has an element
    marked done, whose elements before it have a description and whose
    tests have each left a text in their slot, runs to its end without
    aborting and without touching the log.  It returns 1 when one of the
    reported tests is TEST_OOM or TEST_FATAL, and otherwise 1 when no test
    has failed and 0 when one has: the status is the truth value of
    [total_failed == 0]. *)
Theorem main_loop_status (assert_text : string) (tests : list test_entry) :
  forall (i total_failed total_passed total : Z) (h : harness),
    log_ok h -> 0 <= i -> 0 <= total_failed ->
    existsb done tests = true ->
    (forall e, In e (live tests) -> description e <> None) ->
    i + Z.of_nat (List.length (live tests)) <= cursor (tst h) ->
    (forall k : nat,
        (k < List.length (live tests))%nat ->
        exists s, slot_holds h (i + Z.of_nat k) s) ->
    total_failed + Z.of_nat (List.length (live tests)) <= INT_MAX ->
    total_passed + Z.of_nat (List.length (live tests)) <= INT_MAX ->
    total + Z.of_nat (List.length (live tests)) <= INT_MAX ->
    exists h',
      main_loop assert_text tests i total_failed total_passed total h =
        Ok (Returned (status total_failed (live tests)), h') /\
      tst h' = tst h /\ logmem h' = logmem h /\ mach h' = mach h.
Proof.
  induction tests as [ | e tests IH];
    intros i tf tp tot h Hok Hi Htf Hdone Hdesc Hcur Hslots Hbf Hbp Hbt.
  - discriminate Hdone.
  - cbn [live] in *. destruct (done e) eqn:He.
    + cbn [main_loop]. rewrite He.
      rewrite (tbind_ok _ _ _ _ _ (fprintf_stderr_ok _ _)).
      rewrite status_done. eexists. split; [ reflexivity | ].
      repeat split; reflexivity.
    + cbn [existsb List.length] in *.
      rewrite He in Hdone. cbn [orb] in Hdone.
      destruct (description e) as [d | ] eqn:Hd.
      2:{ exfalso. apply (Hdesc e); [ left; reflexivity | exact Hd ]. }
      destruct (Hslots O) as [s Hslot]; [ lia | ].
      replace (i + Z.of_nat 0) with i in Hslot by lia.
      rewrite (main_loop_pass assert_text e tests i tf tp tot h d s He Hd Hok)
        by (assumption || lia).
      destruct (fatal e) eqn:Hfatal.
      * rewrite (status_fatal tf e (live tests) Hfatal).
        eexists. split; [ reflexivity | ]. repeat split; reflexivity.
      * rewrite (status_next tf e (live tests) Htf Hfatal).
        destruct (IH (i + 1) (if failed e then tf + 1 else tf)
                     (match result e with
                      | TEST_OK => tp + 1
                      | _ => tp
                      end)
                     (tot + 1)
                     (printed (String.append s nl)
                        (printed (msg_test (i + 1) (result e) d) h)))
          as [h' [Hrun [Htst [Hmem Hmach]]]].
        -- exact Hok.
        -- lia.
        -- destruct (failed e); lia.
        -- exact Hdone.
        -- intros e' Hin. apply Hdesc. right. exact Hin.
        -- cbn [printed tst]. lia.
        -- intros k Hk. destruct (Hslots (S k)) as [s' Hs']; [ lia | ].
           exists s'.
           replace (i + 1 + Z.of_nat k) with (i + Z.of_nat (S k)) by lia.
           exact Hs'.
        -- destruct (failed e); lia.
        -- destruct (result e); lia.
        -- lia.
        -- exists h'. split; [ exact Hrun | ].
           split; [ exact Htst | ]. split; [ exact Hmem | exact Hmach ].
Qed.

(** ** main *)

Lemma log_ok_fresh (cursors0 : Z -> Z) (logmem0 : Z -> ascii) (w : machine) :
  log_ok (fresh cursors0 logmem0 w).
Proof.
  unfold log_ok, fresh, TEST_BUF_MEM, PTRDIFF_MAX, TEST_MAX.
  cbn [tst buf buf_max cursor log_size]. lia.
Qed.

(** X14: main, with its initialisers evaluated in the order they are
    written in, on any address of [mem] and any contents of its
    uninitialised locals and of the log block, runs the six tests and the
    report to the end and returns 0: one test is reported as passed, one
    (the rule test) as failed, four as unimplemented, and stderr holds the
    six headers with their logs and the line of totals. *)
Theorem main_returns_0
    (assert_text : string) (mem_addr : ptr) (cursors0 : Z -> Z)
    (logmem0 : Z -> ascii) (w : machine) :
  exists h',
    main assert_text mem_addr (fresh cursors0 logmem0 w) =
      Ok (Returned 0, h') /\
    err h' = main_report /\
    cursor (tst h') = 6 /\ buf (tst h') = 163 /\
    rt (mach h') = mkRuntime mem_addr MPH_DEFAULT_BLOCK 0 /\
    t (ret (mach h')) = MPH_TOTALITY_FAULT /\
    mem (mach h') = mem w.
Proof.
  unfold main, main_tests.
  rewrite (tbind_tbind_ok _ _ _ _ _ _
             (test_rt_init_runs mem_addr MPH_DEFAULT_BLOCK
                (fresh cursors0 logmem0 w)
                (log_ok_fresh cursors0 logmem0 w) eq_refl eq_refl)).
  vm_compute.
  eexists. split; [ reflexivity | ].
  repeat split; reflexivity.
Qed.

(** ** Instances on the cleared block *)

Ltac by_evaluation :=
  vm_compute; repeat split; first [ reflexivity | discriminate ].

Lemma run_test_verdict_witness :
  log_ok fresh_test /\
  cursor (tst fresh_test) < TEST_MAX /\
  size_t_ok (pos (rt (mach fresh_test))) /\
  buf (tst fresh_test) + strlen (log_text Test_rule) + 1
    < buf_max (tst fresh_test) /\
  exists h',
    run_test Test_rule fresh_test = Ok (verdict Test_rule, h') /\
    took_slot (log_text Test_rule) fresh_test h' /\
    mach h' = mach_after Test_rule (mach fresh_test).
Proof.
  split; [ by_evaluation | ].
  split; [ by_evaluation | ].
  split; [ by_evaluation | ].
  split; [ by_evaluation | ].
  apply (run_test_verdict Test_rule fresh_test); by_evaluation.
Defined.

Lemma run_test_verdict_or_oom_witness :
  run_test Test_rule fresh_test = Ok (TEST_FAILED, after_rule_test) /\
  (TEST_FAILED = verdict Test_rule \/ TEST_FAILED = TEST_OOM).
Proof.
  split; [ vm_compute; reflexivity | ].
  apply (run_test_verdict_or_oom Test_rule fresh_test after_rule_test
           TEST_FAILED).
  vm_compute; reflexivity.
Defined.

Lemma run_test_not_oom_logged_all_witness :
  log_ok fresh_test /\
  size_t_ok (pos (rt (mach fresh_test))) /\
  run_test Test_rule fresh_test = Ok (TEST_FAILED, after_rule_test) /\
  TEST_FAILED <> TEST_OOM /\
  TEST_FAILED = verdict Test_rule /\
  buf (tst fresh_test) + strlen (log_text Test_rule) + 1
    < buf_max (tst fresh_test) /\
  took_slot (log_text Test_rule) fresh_test after_rule_test /\
  mach after_rule_test = mach_after Test_rule (mach fresh_test).
Proof.
  split; [ by_evaluation | ].
  split; [ by_evaluation | ].
  split; [ vm_compute; reflexivity | ].
  split; [ discriminate | ].
  apply (run_test_not_oom_logged_all Test_rule fresh_test after_rule_test
           TEST_FAILED).
  - by_evaluation.
  - by_evaluation.
  - vm_compute; reflexivity.
  - discriminate.
Defined.


Lemma run_test_then_flush_witness :
  log_ok after_cell_test /\
  cursor (tst after_cell_test) < TEST_MAX /\
  size_t_ok (pos (rt (mach after_cell_test))) /\
  buf (tst after_cell_test) + strlen (log_text Test_rule) + 1
    < buf_max (tst after_cell_test) /\
  exists h',
    run_test Test_rule after_cell_test = Ok (verdict Test_rule, h') /\
    flush_test_logs assert_text_gnu (cursor (tst after_cell_test)) h' =
      Ok (true, printed (String.append (log_text Test_rule) nl) h') /\
    forall (i : Z) (s : string),
      0 <= i < cursor (tst after_cell_test) ->
      slot_holds after_cell_test i s ->
      flush_test_logs assert_text_gnu i h' =
      Ok (true, printed (String.append s nl) h').
Proof.
  split; [ by_evaluation | ].
  split; [ by_evaluation | ].
  split; [ by_evaluation | ].
  split; [ by_evaluation | ].
  apply (run_test_then_flush assert_text_gnu Test_rule after_cell_test);
    by_evaluation.
Defined.

Lemma main_loop_status_witness :
  log_ok after_cell_test /\
  existsb done one_failed = true /\
  (forall e, In e (live one_failed) -> description e <> None) /\
  0 + Z.of_nat (List.length (live one_failed))
    <= cursor (tst after_cell_test) /\
  (forall k : nat,
      (k < List.length (live one_failed))%nat ->
      exists s, slot_holds after_cell_test (0 + Z.of_nat k) s) /\
  exists h',
    main_loop assert_text_gnu one_failed 0 0 0 0 after_cell_test =
      Ok (Returned (status 0 (live one_failed)), h') /\
    tst h' = tst after_cell_test /\ logmem h' = logmem after_cell_test /\
    mach h' = mach after_cell_test.
Proof.
  assert (Hdesc : forall e,
             In e (live one_failed) -> description e <> None).
  { intros e Hin. vm_compute in Hin.
    destruct Hin as [<- | []]. discriminate. }
  assert (Hslots : forall k : nat,
             (k < List.length (live one_failed))%nat ->
             exists s, slot_holds after_cell_test (0 + Z.of_nat k) s).
  { intros k Hk. exists msg_init.
    destruct k as [ | k]; [ by_evaluation | ].
    vm_compute in Hk. lia. }
  split; [ by_evaluation | ].
  split; [ reflexivity | ].
  split; [ exact Hdesc | ].
  split; [ by_evaluation | ].
  split; [ exact Hslots | ].
  apply (main_loop_status assert_text_gnu one_failed 0 0 0 0
           after_cell_test);
    first [ exact Hdesc | exact Hslots | by_evaluation ].
Defined.

End HarnessFacts.
